(** * multiply_labs: resource scheduling simulator

    A shallow embedding of [soln.py] and [read_csv.py]:
    - [Resource]: a named queue of pending operations served by a
      one-thread pool;
    - [Process]: a list of operations driven through the resources, with
      its start and end time;
    - [schedule_processes]: the registry, the loading of the operation
      lists and the reported cluster time.

    Python integers are unbounded: they are [Z].  Dictionaries are [gmap],
    the deque is a [list] whose head is its left end.  A method that mutates
    [self] is a computation in a state-and-exception monad: a raised
    exception keeps the mutations made before it, as in Python.

    Threads are interleaved moves of one state.  A block run under
    [with self.condition] is one move.  The pool of a resource has one
    thread, as [Resource(res)] builds it: it takes a work item, ends its
    execution, then runs the done callback, which [__process_next] has
    registered by then: the run in which the execution ends before line 52
    is reached, so that [add_done_callback] calls [__operation_completed]
    on the requesting thread while that thread holds the lock, is not
    modelled.  [shutdown] is one move that sets [_stopping]; its wait for
    the pool changes no state.  What [time.sleep] and the clock return is
    given from outside.  The progress bar and the line printed by [run]
    are left out. *)

From stdpp Require Import gmap strings list fin_maps.

Local Open Scope Z_scope.

(** ** Exceptions and results *)

Inductive Exn : Type :=
  | IndexError
  | KeyError (key : string)
  | ValueError
  | TypeError
  | StopIteration
  | Exception (cause : Exn).

Inductive Result (A : Type) : Type :=
  | Ok (value : A)
  | Raise (e : Exn).
Arguments Ok {A} value.
Arguments Raise {A} e.

(** A computation over a mutable object of type [S]. *)
Definition M (S A : Type) : Type := S → S * Result A.

Definition ret {S A} (a : A) : M S A := λ s, (s, Ok a).
Definition throw {S A} (e : Exn) : M S A := λ s, (s, Raise e).
Definition bind {S A B} (c : M S A) (k : A → M S B) : M S B :=
  λ s, match c s with
       | (s', Ok a) => k a s'
       | (s', Raise e) => (s', Raise e)
       end.
Arguments bind {S A B} & c k.
Definition get {S A} (f : S → A) : M S A := λ s, (s, Ok (f s)).
Definition modify {S} (f : S → S) : M S unit := λ s, (f s, Ok tt).

Notation "'do' x <~ c ; k" := (bind c (λ x, k))
  (at level 10, x name, c at level 100, k at level 200,
   format "'[v' 'do'  x  <~  c ; '/' k ']'").

(** [xs[i]] for a Python list and an index that is not negative. *)
Definition index {S A} (xs : list A) (i : nat) : M S A :=
  match xs !! i with
  | Some x => ret x
  | None => throw IndexError
  end.

(** ** Data *)

(** A [threading.Event] is known by its identity; the flags that are set
    are kept in one store. *)
Abbreviation Event := nat.

(** [(resource_name, opcode, duration_ms)] *)
Abbreviation Operation := (string * string * Z)%type.

(** [(process_id, opcode, duration_ms, event)], an entry of a queue. *)
Abbreviation PendingRequest := (nat * string * Z * option nat)%type.

(** The single thread of [ThreadPoolExecutor(max_workers=1)]: it takes work
    items in the order of [submit], runs one, then runs its done callback. *)
Inductive Worker : Type :=
  | Idle
  | Executing (item : PendingRequest)
  | Completing (item : PendingRequest) (exception : option Exn).

(** [done_log] lists the work items whose execution has ended, oldest
    first; the program never reads it. *)
Record ThreadPoolExecutor : Type := mkExecutor {
  work_queue : list PendingRequest;
  worker : Worker;
  done_log : list PendingRequest
}.

Record Resource : Type := mkResource {
  name : string;
  active : bool;
  queue : list PendingRequest;
  _stopping : bool;
  executor : ThreadPoolExecutor
}.

Definition set_active (b : bool) (self : Resource) : Resource :=
  mkResource (name self) b (queue self) (_stopping self) (executor self).
Definition set_queue (q : list PendingRequest) (self : Resource) : Resource :=
  mkResource (name self) (active self) q (_stopping self) (executor self).
Definition set_stopping (b : bool) (self : Resource) : Resource :=
  mkResource (name self) (active self) (queue self) b (executor self).
Definition set_executor (e : ThreadPoolExecutor) (self : Resource) : Resource :=
  mkResource (name self) (active self) (queue self) (_stopping self) e.

(** ** Resource *)

Module Resource.

(** [Resource.__init__] *)
Definition init (name : string) : Resource :=
  mkResource name false [] false (mkExecutor [] Idle []).

(** [self.queue.append(item)] *)
Definition queue_append (item : PendingRequest) : M Resource unit :=
  modify (λ self, set_queue (queue self ++ [item]) self).

(** [self.executor.submit(self.__execute, ...)] *)
Definition executor_submit (item : PendingRequest) : M Resource unit :=
  modify (λ self,
    let ex := executor self in
    set_executor (mkExecutor (work_queue ex ++ [item]) (worker ex) (done_log ex)) self).

(** [Resource.__process_next] *)
Definition __process_next : M Resource unit :=
  do stopping <~ get _stopping;
  do q <~ get queue;
  match q with
  | [] => ret tt
  | item :: rest =>
      if stopping then ret tt
      else
        do _ <~ modify (set_active true);
        do _ <~ modify (set_queue rest);
        executor_submit item
  end.

(** [Resource.request], the whole body under [with self.condition] *)
Definition request (process_id : nat) (operation : string)
    (duration : list Z) (event : Event) : M Resource unit :=
  do nm <~ get name;
  do _ <~ (if (nm =? "arm")%string && (operation =? "0x500")%string then
             do d0 <~ index duration 0;
             do _ <~ queue_append (process_id, "0x500"%string, d0, None);
             do d1 <~ index duration 1;
             queue_append (process_id, "0x600"%string, d1, Some event)
           else
             do d0 <~ index duration 0;
             queue_append (process_id, operation, d0, Some event));
  do act <~ get active;
  if act then ret tt else __process_next.

(** [Resource.__operation_completed]; [exception] is [future.exception()] *)
Definition __operation_completed (exception : option Exn) : M Resource unit :=
  match exception with
  | Some e => throw (Exception e)
  | None =>
      do q <~ get queue;
      match q with
      | [] => modify (set_active false)
      | _ :: _ => __process_next
      end
  end.

(** [Resource.shutdown]: the wait for the pool changes no state *)
Definition shutdown : M Resource unit :=
  modify (set_stopping true).

End Resource.

(** ** The worker thread of a resource *)

Definition try_finally {S A} (body : M S A) (final : M S unit) : M S A :=
  λ s, match body s with
       | (s', r) =>
           match final s' with
           | (s'', Ok _) => (s'', r)
           | (s'', Raise e) => (s'', Raise e)
           end
       end.

(** [event.set()] on the store of flags *)
Definition event_set (event : Event) : M (gset Event) unit :=
  modify (λ flags, {[event]} ∪ flags).

(** [event.is_set()], what [event.wait()] waits for *)
Definition is_set (flags : gset Event) (event : Event) : bool :=
  bool_decide (event ∈ flags).

Definition exception_of {A} (r : Result A) : option Exn :=
  match r with Ok _ => None | Raise e => Some e end.

Definition set_worker (w : Worker) (self : Resource) : Resource :=
  let ex := executor self in
  set_executor (mkExecutor (work_queue ex) w (done_log ex)) self.

(** A resource together with the flags of the events. *)
Abbreviation Site := (Resource * gset nat)%type.

Inductive Label : Type :=
  | Request (process_id : nat) (operation : string) (duration : list Z) (event : Event)
  | Pickup
  | Finish
  | Callback
  | Shutdown.

Section Worker.

(** The outcome of [time.sleep(duration / 1000)], given [duration]. *)
Variable time_sleep : Z → Result unit.

(** [Resource.__execute] *)
Definition __execute (process_id : nat) (operation : string) (duration : Z)
    (event : option Event) : M (gset Event) unit :=
  try_finally
    (λ flags, (flags, time_sleep duration))
    (match event with
     | Some ev => event_set ev
     | None => ret tt
     end).

(** The pool thread takes the oldest work item. *)
Definition pickup (self : Resource) : option Resource :=
  let ex := executor self in
  match worker ex, work_queue ex with
  | Idle, item :: rest =>
      Some (set_executor (mkExecutor rest (Executing item) (done_log ex)) self)
  | _, _ => None
  end.

(** The execution of the running item ends; its future holds the outcome. *)
Definition finish (st : Site) : option Site :=
  let '(self, flags) := st in
  let ex := executor self in
  match worker ex with
  | Executing ((process_id, operation, duration, event) as item) =>
      let '(flags', r) := __execute process_id operation duration event flags in
      Some (set_executor
              (mkExecutor (work_queue ex) (Completing item (exception_of r))
                 (done_log ex ++ [item])) self,
            flags')
  | _ => None
  end.

(** The done callback runs on the pool thread, which is free afterwards;
    an exception of the callback is logged by the pool and goes nowhere. *)
Definition callback (self : Resource) : option (Resource * Result unit) :=
  match worker (executor self) with
  | Completing _ exception =>
      let '(self', r) := Resource.__operation_completed exception self in
      Some (set_worker Idle self', r)
  | _ => None
  end.

Definition step (l : Label) (st : Site) : option Site :=
  let '(self, flags) := st in
  match l with
  | Request process_id operation duration event =>
      Some ((Resource.request process_id operation duration event self).1, flags)
  | Pickup => self' ← pickup self; Some (self', flags)
  | Finish => finish st
  | Callback => '(self', _) ← callback self; Some (self', flags)
  | Shutdown => Some ((Resource.shutdown self).1, flags)
  end.

Fixpoint exec (tr : list Label) (st : Site) : option Site :=
  match tr with
  | [] => Some st
  | l :: tr' => st' ← step l st; exec tr' st'
  end.

(** One move of a resource, whatever the flags are, and the states a
    resource named [nm] can be in. *)
Definition moves (self self' : Resource) : Prop :=
  ∃ l flags flags', step l (self, flags) = Some (self', flags').

Definition reachable (nm : string) (self : Resource) : Prop :=
  rtc moves (Resource.init nm) self.

End Worker.

(** Entries in the order in which they leave the resource: those whose
    execution has ended, the one running, those handed to the pool, those
    still queued. *)
Definition executing (self : Resource) : list PendingRequest :=
  match worker (executor self) with
  | Executing item => [item]
  | _ => []
  end.

Definition in_flight (self : Resource) : list PendingRequest :=
  executing self ++ work_queue (executor self).

Definition pipeline (self : Resource) : list PendingRequest :=
  done_log (executor self) ++ in_flight self ++ queue self.

(** ** Process *)

(** [self.resource_manager] is a reference to the one dictionary built by
    [schedule_processes]: the dictionary is passed along instead. *)
Record Process : Type := mkProcess {
  process_id : nat;
  operations : list Operation;
  start_time : option Z;
  end_time : option Z
}.

Definition set_start_time (t : Z) (self : Process) : Process :=
  mkProcess (process_id self) (operations self) (Some t) (end_time self).
Definition set_end_time (t : Z) (self : Process) : Process :=
  mkProcess (process_id self) (operations self) (start_time self) (Some t).

(** Where the thread of [Process.run] stands: before the [try], at the test
    of the [while], inside [event.wait()] with the value [i] has there,
    after the assignment of [end_time], or in the [except] branch. *)
Inductive Control : Type :=
  | NotStarted
  | LoopHead (i : nat)
  | Blocked (i : nat) (event : Event)
  | Finished
  | Caught (e : Exn).

Record Runner : Type := mkRunner {
  proc : Process;
  control : Control
}.

(** What the threads share: the registry, the flags of the events, and the
    identity the next [threading.Event()] gets. *)
Record Cluster : Type := mkCluster {
  resource_manager : gmap string Resource;
  flags : gset Event;
  next_event : Event;
  threads : list Runner
}.

Definition set_resource_manager (rm : gmap string Resource) (c : Cluster) : Cluster :=
  mkCluster rm (flags c) (next_event c) (threads c).
Definition set_flags (fl : gset Event) (c : Cluster) : Cluster :=
  mkCluster (resource_manager c) fl (next_event c) (threads c).
Definition set_threads (ts : list Runner) (c : Cluster) : Cluster :=
  mkCluster (resource_manager c) (flags c) (next_event c) ts.

(** [threading.Event()] *)
Definition new_event : M Cluster Event :=
  λ c, (mkCluster (resource_manager c) (flags c) (S (next_event c)) (threads c),
        Ok (next_event c)).

(** [self.resource_manager[resource_type]], as the key of the object *)
Definition registry_lookup (resource_type : string) : M Cluster string :=
  λ c, match resource_manager c !! resource_type with
       | Some _ => (c, Ok resource_type)
       | None => (c, Raise (KeyError resource_type))
       end.

(** A method call on the resource object found under [resource]. *)
Definition on_resource {A} (resource : string) (method : M Resource A) : M Cluster A :=
  λ c, match resource_manager c !! resource with
       | Some self =>
           let '(self', r) := method self in
           (set_resource_manager (<[resource := self']> (resource_manager c)) c, r)
       | None => (c, Raise (KeyError resource))
       end.

Module Process.

(** [Process.__init__] *)
Definition init (process_id : nat) (operations : list Operation) : Process :=
  mkProcess process_id operations None None.

(** Lines 97-105, the body of the [while] of [Process.run] through the call
    of [request]: the result is the value of [i] and the event waited on in
    line 106. *)
Definition run_body (self : Process) (i : nat) : M Cluster (nat * Event) :=
  do op <~ index (operations self) i;
  let '(resource_type, operation, duration) := op in
  do resource <~ registry_lookup resource_type;
  do event <~ new_event;
  do ahead <~ (if (resource_type =? "arm")%string && (operation =? "0x500")%string then
                 do nxt <~ index (operations self) (i + 1);
                 ret ((i + 1)%nat, [duration; nxt.2])
               else ret (i, [duration]));
  do _ <~ on_resource resource
            (Resource.request (process_id self) operation ahead.2 event);
  ret (ahead.1, event).

(** One move of the thread of [Process.run]; [now] is
    [int(time.time() * 1000)] where the move reads the clock. *)
Definition run_step (now : Z) (r : Runner) (c : Cluster) : option (Runner * Cluster) :=
  let self := proc r in
  match control r with
  | NotStarted =>
      Some (mkRunner (set_start_time now self) (LoopHead 0), c)
  | LoopHead i =>
      if bool_decide (i < length (operations self))%nat then
        match run_body self i c with
        | (c', Ok (i', event)) => Some (mkRunner self (Blocked i' event), c')
        | (c', Raise e) => Some (mkRunner self (Caught e), c')
        end
      else Some (mkRunner (set_end_time now self) Finished, c)
  | Blocked i event =>
      if is_set (flags c) event then Some (mkRunner self (LoopHead (i + 1)), c)
      else None
  | Finished => None
  | Caught _ => None
  end.

(** The loop of [get_downtime] *)
Fixpoint charge (operations : list Operation) (downtime : gmap string Z)
    : Result (gmap string Z) :=
  match operations with
  | [] => Ok downtime
  | (resource_type, _, duration) :: rest =>
      match downtime !! resource_type with
      | Some v => charge rest (<[resource_type := v - duration]> downtime)
      | None => Raise (KeyError resource_type)
      end
  end.

(** [Process.get_downtime] *)
Definition get_downtime (resource_manager : gmap string Resource) (self : Process)
    : Result (gmap string Z) :=
  match end_time self with
  | None => Ok ∅
  | Some e =>
      match start_time self with
      | None => Raise TypeError
      | Some s =>
          let total_time := e - s in
          let downtime := (λ _ : Resource, total_time) <$> resource_manager in
          charge (operations self) downtime
      end
  end.

End Process.

(** ** The cluster: all threads and all resources *)

Inductive ClusterLabel : Type :=
  | Run (k : nat) (now : Z)
  | Work (resource : string) (l : Label).

Section Cluster.

Variable time_sleep : Z → Result unit.

(** One atomic move of the cluster: thread [k] of [Process.run] moves, or
    the pool thread of a resource does, or a resource is shut down.  A
    [request] is made by a thread of [Process.run] only. *)
Definition cluster_step (l : ClusterLabel) (c : Cluster) : option Cluster :=
  match l with
  | Run k now =>
      r ← threads c !! k;
      '(r', c') ← Process.run_step now r c;
      Some (set_threads (<[k := r']> (threads c')) c')
  | Work resource (Request _ _ _ _) => None
  | Work resource l =>
      self ← resource_manager c !! resource;
      '(self', flags') ← step time_sleep l (self, flags c);
      Some (set_flags flags'
              (set_resource_manager (<[resource := self']> (resource_manager c)) c))
  end.

Fixpoint cluster_exec (tr : list ClusterLabel) (c : Cluster) : option Cluster :=
  match tr with
  | [] => Some c
  | l :: tr' => c' ← cluster_step l c; cluster_exec tr' c'
  end.

End Cluster.

(** ** schedule_processes *)

Definition RESOURCE_TYPES : gset string :=
  {[ "inc"; "out"; "add"; "smp"; "arm" ]}%string.

(** [{res: Resource(res) for res in RESOURCE_TYPES}] *)
Definition registry : gmap string Resource :=
  set_to_map (λ res, (res, Resource.init res)) RESOURCE_TYPES.

(** The cluster when the threads are started (line 143), from the
    operation lists that were loaded. *)
Definition started (loaded : list (list Operation)) : Cluster :=
  mkCluster registry ∅ 0%nat
    (imap (λ i operations, mkRunner (Process.init i operations) NotStarted) loaded).

Section ReadCsv.

(** Python's [int] on a string: [None] where it raises [ValueError]. *)
Variable int : string → option Z.

(** The [for] loop of [read_process_from_csv] over the rows that
    [csv.reader] yields. *)
Fixpoint read_rows (rows : list (list string)) (operations : list Operation)
    : Result (list Operation) :=
  match rows with
  | [] => Ok operations
  | row :: rest =>
      match row with
      | [module; operation; duration] =>
          match int duration with
          | Some d => read_rows rest (operations ++ [(module, operation, d)])
          | None => Raise ValueError
          end
      | _ => Raise ValueError
      end
  end.

(** [read_process_from_csv]; [rows] is what [csv.reader(file)] yields. *)
Definition read_process_from_csv (rows : list (list string)) : Result (list Operation) :=
  match rows with
  | [] => Raise StopIteration
  | _ :: rest => read_rows rest []
  end.

(** Lines 136-137 of [schedule_processes]: every file is read before any
    thread exists. *)
Fixpoint load (files : list (list (list string))) (loaded : list (list Operation))
    : Result (list (list Operation)) :=
  match files with
  | [] => Ok loaded
  | file :: rest =>
      match read_process_from_csv file with
      | Ok operations => load rest (loaded ++ [operations])
      | Raise e => Raise e
      end
  end.

(** [schedule_processes] up to the start of the threads. *)
Definition schedule_setup (files : list (list (list string))) : Result Cluster :=
  match load files [] with
  | Ok loaded => Ok (started loaded)
  | Raise e => Raise e
  end.

End ReadCsv.

(** [min(...)] and [max(...)] of a generator of integers *)
Definition py_min (xs : list Z) : Result Z :=
  match xs with
  | [] => Raise ValueError
  | x :: rest => Ok (foldl Z.min x rest)
  end.

Definition py_max (xs : list Z) : Result Z :=
  match xs with
  | [] => Raise ValueError
  | x :: rest => Ok (foldl Z.max x rest)
  end.

(** Lines 154-157 of [schedule_processes]: the value printed as
    [Total Cluster Time]. *)
Definition cluster_time (processes : list Process) : Result Z :=
  match py_min (omap start_time processes) with
  | Raise e => Raise e
  | Ok start =>
      match py_max (omap end_time processes) with
      | Raise e => Raise e
      | Ok finish => Ok (finish - start)
      end
  end.

(** ** Vocabulary of the statements *)

(** The last two lines of [request]. *)
Definition dispatch_if_idle : M Resource unit :=
  do act <~ get active;
  if act then ret tt else Resource.__process_next.

(** The test of line 29 (and of line 101, on the key of the resource). *)
Definition is_fused (nm operation : string) : bool :=
  (nm =? "arm")%string && (operation =? "0x500")%string.

(** CPython's [time.sleep] raises [ValueError] on a negative length and
    returns otherwise; the instance used where a statement is evaluated. *)
Definition py_sleep (duration : Z) : Result unit :=
  if duration <? 0 then Raise ValueError else Ok tt.

(** Entries that have left the queue of a resource. *)
Definition dispatched (self : Resource) : list PendingRequest :=
  done_log (executor self) ++ in_flight self.

(** What the dispatcher keeps true of the pool of a resource. *)
Definition one_at_a_time (self : Resource) : Prop :=
  match worker (executor self) with
  | Idle => (length (work_queue (executor self)) ≤ 1)%nat
  | _ => work_queue (executor self) = []
  end
  ∧ (active self = false →
     worker (executor self) = Idle ∧ work_queue (executor self) = []).

(** The durations of the operations of a list that name [resource],
    summed. *)
Definition charged (resource : string) (operations : list Operation) : Z :=
  foldr Z.add 0 ((λ op : Operation, op.2) <$>
                 filter (λ op : Operation, op.1.1 = resource) operations).

(** The states of the cluster after [schedule_processes] has started the
    threads of the loaded operation lists. *)
Definition cluster_reachable (time_sleep : Z → Result unit)
    (loaded : list (list Operation)) (c : Cluster) : Prop :=
  ∃ tr, cluster_exec time_sleep tr (started loaded) = Some c.

(** The time stamps of a process, by where its thread stands. *)
Definition times_ok (r : Runner) : Prop :=
  match control r with
  | NotStarted => start_time (proc r) = None ∧ end_time (proc r) = None
  | Finished => is_Some (start_time (proc r)) ∧ is_Some (end_time (proc r))
  | _ => is_Some (start_time (proc r)) ∧ end_time (proc r) = None
  end.

Definition thread_ok (loaded : list (list Operation)) (k : nat) (r : Runner) : Prop :=
  process_id (proc r) = k
  ∧ loaded !! k = Some (operations (proc r))
  ∧ times_ok r.

Definition registry_ok (time_sleep : Z → Result unit)
    (rm : gmap string Resource) : Prop :=
  dom rm = RESOURCE_TYPES
  ∧ ∀ key self, rm !! key = Some self →
      name self = key ∧ reachable time_sleep key self.

Definition cluster_ok (time_sleep : Z → Result unit)
    (loaded : list (list Operation)) (c : Cluster) : Prop :=
  registry_ok time_sleep (resource_manager c)
  ∧ ∀ k r, threads c !! k = Some r → thread_ok loaded k r.

(** A row that [read_process_from_csv] turns into the operation [op]. *)
Definition parses_to (int : string → option Z) (row : list string)
    (op : Operation) : Prop :=
  ∃ module operation duration d,
    row = [module; operation; duration]
    ∧ int duration = Some d
    ∧ op = (module, operation, d).

(** A row with a wrong number of columns or a duration that is no integer. *)
Definition malformed (int : string → option Z) (row : list string) : Prop :=
  length row ≠ 3%nat
  ∨ ∃ module operation duration,
      row = [module; operation; duration] ∧ int duration = None.

(** [int] on plain decimal numerals; the instance used where a statement is
    evaluated. *)
Definition digit (a : Ascii.ascii) : option Z :=
  let n := Ascii.nat_of_ascii a in
  if ((48 <=? n) && (n <=? 57))%nat then Some (Z.of_nat (n - 48)) else None.

Fixpoint digits (s : string) (acc : Z) : option Z :=
  match s with
  | EmptyString => Some acc
  | String a rest => d ← digit a; digits rest (10 * acc + d)
  end.

Definition decimal (s : string) : option Z :=
  match s with
  | EmptyString => None
  | _ => digits s 0
  end.

(** Entries that have left the queue of a resource or wait in it, and whose
    execution has not ended. *)
Definition pending (self : Resource) : list PendingRequest :=
  in_flight self ++ queue self.

(** A resource that is active with nothing handed to its pool. *)
Definition stranded (self : Resource) : Prop :=
  active self = true
  ∧ worker (executor self) = Idle
  ∧ work_queue (executor self) = [].

(** ** The report of [schedule_processes] *)

(** A printed line: [Process {id} finished in {ms} ms],
    [Downtime for Process {id}: {downtime}], [Total Cluster Time: {ms}]. *)
Inductive Line : Type :=
  | FinishedIn (process_id : nat) (ms : Z)
  | Downtime (process_id : nat) (downtime : gmap string Z)
  | TotalClusterTime (ms : Z).

(** [print(line)] on the lines printed so far *)
Definition print (line : Line) : M (list Line) unit :=
  modify (λ out, out ++ [line]).

(** A value computed without a change of state. *)
Definition lift {S A} (r : Result A) : M S A := λ s, (s, r).

(** [a - b] where either may be [None] *)
Definition py_sub (a b : option Z) : Result Z :=
  match a, b with
  | Some x, Some y => Ok (x - y)
  | _, _ => Raise TypeError
  end.

(** Lines 149-151 of [schedule_processes] *)
Fixpoint report_processes (rm : gmap string Resource) (processes : list Process)
    : M (list Line) unit :=
  match processes with
  | [] => ret tt
  | process :: rest =>
      do elapsed <~ lift (py_sub (end_time process) (start_time process));
      do _ <~ print (FinishedIn (process_id process) elapsed);
      do downtime <~ lift (Process.get_downtime rm process);
      do _ <~ print (Downtime (process_id process) downtime);
      report_processes rm rest
  end.

(** Lines 149-157 of [schedule_processes], after the threads are joined *)
Definition report (rm : gmap string Resource) (processes : list Process)
    : M (list Line) unit :=
  do _ <~ report_processes rm processes;
  do total <~ lift (cluster_time processes);
  print (TotalClusterTime total).

(** The two lines printed for a process that has finished. *)
Definition reported (rm : gmap string Resource) (process : Process)
    (lines : list Line) : Prop :=
  ∃ s e downtime,
    start_time process = Some s
    ∧ end_time process = Some e
    ∧ Process.get_downtime rm process = Ok downtime
    ∧ lines = [FinishedIn (process_id process) (e - s);
               Downtime (process_id process) downtime].

(** The event a thread waits on is set, or an entry that carries it is
    with a resource and has not been executed. *)
Definition awaited (c : Cluster) (pid : nat) (event : Event) : Prop :=
  event ∈ flags c
  ∨ ∃ key self operation duration,
      resource_manager c !! key = Some self
      ∧ (pid, operation, duration, Some event) ∈ pending self.

(** A resource that has not been shut down and is not active has nothing
    in its queue. *)
Definition idle_queue_empty (self : Resource) : Prop :=
  _stopping self = false → active self = false → queue self = [].

(** An entry of the resource [key] that a loaded process asked for: the
    entry of an operation of the process that names [key], without event
    when it is the first step of a fused pair; or, on "arm", the second step
    of a fused pair, with the duration of the operation that follows the
    fused one in the list. *)
Definition requested (loaded : list (list Operation)) (key : string)
    (entry : PendingRequest) : Prop :=
  ∃ ops i,
    loaded !! entry.1.1.1 = Some ops
    ∧ ((ops !! i = Some (key, entry.1.1.2, entry.1.2)
        ∧ (entry.2 = None ↔ is_fused key entry.1.1.2 = true))
       ∨ (key = "arm"%string
          ∧ entry.1.1.2 = "0x600"%string
          ∧ is_Some entry.2
          ∧ (∃ d0, ops !! i = Some ("arm", "0x500", d0)%string)
          ∧ ∃ nm' op', ops !! (i + 1)%nat = Some (nm', op', entry.1.2))).

(** The [n]-th entry of the pipeline of a resource carries [event]. *)
Definition carries (self : Resource) (n : nat) (event : Event) : Prop :=
  ∃ pid op d, pipeline self !! n = Some (pid, op, d, Some event).

(** An event is carried by one entry of one resource at most, and was made
    before the next one to be made. *)
Definition events_unique (c : Cluster) : Prop :=
  (∀ key self n ev,
     resource_manager c !! key = Some self → carries self n ev →
     (ev < next_event c)%nat)
  ∧ (∀ key1 key2 self1 self2 n1 n2 ev,
       resource_manager c !! key1 = Some self1 →
       resource_manager c !! key2 = Some self2 →
       carries self1 n1 ev → carries self2 n2 ev →
       key1 = key2 ∧ n1 = n2).

(** Thread [k] waits on [event], whose entry is queued at the stranded
    resource [key]. *)
Definition waits_at_stranded (c : Cluster) (key : string) (k : nat) (r : Runner)
    (event : Event) : Prop :=
  threads c !! k = Some r
  ∧ (∃ i, control r = Blocked i event)
  ∧ ∃ self pid op d,
      resource_manager c !! key = Some self
      ∧ stranded self
      ∧ (pid, op, d, Some event) ∈ queue self.

(** A thread of [Process.run] that has ended. *)
Definition joined (r : Runner) : Prop :=
  control r = Finished ∨ ∃ e, control r = Caught e.

(** * Properties *)

(** ** The effect of [request] on the queue *)

Lemma set_queue_twice q q' self :
  set_queue q' (set_queue q self) = set_queue q' self.
Proof. done. Qed.

Lemma request_fused_eq self process_id d0 d1 ds event :
  name self = "arm"%string →
  Resource.request process_id "0x500" (d0 :: d1 :: ds) event self
  = dispatch_if_idle
      (set_queue (queue self ++ [(process_id, "0x500"%string, d0, None);
                                 (process_id, "0x600"%string, d1, Some event)]) self).
Proof.
  intros Hnm. unfold Resource.request, dispatch_if_idle, bind, get; simpl.
  rewrite Hnm. simpl. by rewrite set_queue_twice, <- app_assoc.
Qed.

Lemma request_plain_eq self process_id operation d ds event :
  is_fused (name self) operation = false →
  Resource.request process_id operation (d :: ds) event self
  = dispatch_if_idle
      (set_queue (queue self ++ [(process_id, operation, d, Some event)]) self).
Proof.
  intros Hnf. unfold Resource.request, dispatch_if_idle, bind, get; simpl.
  unfold is_fused in Hnf. rewrite Hnf. done.
Qed.

(** ** The pipeline of a resource only grows, at its tail *)

Lemma pipeline_set_queue q self :
  pipeline (set_queue q self) = done_log (executor self) ++ in_flight self ++ q.
Proof. done. Qed.

Lemma pipeline_process_next self :
  pipeline (Resource.__process_next self).1 = pipeline self.
Proof.
  destruct self as [nm act q stop [wq w dl]].
  unfold Resource.__process_next, bind, get; simpl.
  destruct q as [|item rest]; [done|]. destruct stop; [done|].
  unfold pipeline, in_flight, executing; simpl.
  by rewrite <- !app_assoc.
Qed.

Lemma pipeline_dispatch_if_idle self :
  pipeline (dispatch_if_idle self).1 = pipeline self.
Proof.
  unfold dispatch_if_idle, bind, get; simpl.
  destruct (active self); [done|]. apply pipeline_process_next.
Qed.

Lemma pipeline_request self process_id operation duration event :
  ∃ new, pipeline (Resource.request process_id operation duration event self).1
         = pipeline self ++ new.
Proof.
  destruct (is_fused (name self) operation) eqn:Hf.
  - apply andb_true_iff in Hf as [Hn%String.eqb_eq Ho%String.eqb_eq].
    subst operation. destruct duration as [|d0 [|d1 ds]].
    + exists []. rewrite app_nil_r.
      unfold Resource.request, bind, get; simpl. by rewrite Hn.
    + exists [(process_id, "0x500"%string, d0, None)].
      unfold Resource.request, bind, get; simpl. rewrite Hn; simpl.
      unfold pipeline; simpl. by rewrite !app_assoc.
    + rewrite request_fused_eq by done.
      rewrite pipeline_dispatch_if_idle, pipeline_set_queue.
      exists [(process_id, "0x500"%string, d0, None);
              (process_id, "0x600"%string, d1, Some event)].
      unfold pipeline. by rewrite <- !app_assoc.
  - destruct duration as [|d ds].
    + exists []. rewrite app_nil_r.
      unfold Resource.request, bind, get; simpl. unfold is_fused in Hf.
      by rewrite Hf.
    + rewrite request_plain_eq by done.
      rewrite pipeline_dispatch_if_idle, pipeline_set_queue.
      exists [(process_id, operation, d, Some event)].
      unfold pipeline. by rewrite <- !app_assoc.
Qed.

Section WorkerFacts.

Variable time_sleep : Z → Result unit.

Lemma pipeline_pickup self self' :
  pickup self = Some self' → pipeline self' = pipeline self.
Proof.
  destruct self as [nm act q stop [wq w dl]]. unfold pickup; simpl.
  destruct w; try done. destruct wq as [|item rest]; [done|].
  by intros [= <-].
Qed.

Lemma pipeline_finish self flags self' flags' :
  finish time_sleep (self, flags) = Some (self', flags') →
  pipeline self' = pipeline self.
Proof.
  destruct self as [nm act q stop [wq w dl]]. unfold finish; simpl.
  destruct w as [|[[[pid op] d] ev]|]; try done.
  destruct (__execute _ _ _ _ _ _) as [fl r]. intros [= <- <-].
  unfold pipeline, in_flight, executing; simpl. by rewrite <- !app_assoc.
Qed.

Lemma pipeline_set_worker_idle self :
  executing self = [] → pipeline (set_worker Idle self) = pipeline self.
Proof. unfold pipeline, in_flight, executing; simpl. by intros ->. Qed.

Lemma executing_process_next self :
  executing (Resource.__process_next self).1 = executing self.
Proof.
  destruct self as [nm act q stop [wq w dl]].
  unfold Resource.__process_next, bind, get; simpl.
  destruct q; [done|]. by destruct stop.
Qed.

Lemma pipeline_callback self self' r :
  callback self = Some (self', r) → pipeline self' = pipeline self.
Proof.
  unfold callback. destruct (worker (executor self)) as [| |item exc] eqn:Hw; try done.
  destruct (Resource.__operation_completed exc self) as [self1 r1] eqn:Hc.
  intros [= <- <-].
  assert (executing self = []) as Hex by (unfold executing; by rewrite Hw).
  destruct exc as [e|]; simpl in Hc.
  - injection Hc as <- <-. by apply pipeline_set_worker_idle.
  - unfold bind, get in Hc; simpl in Hc. destruct (queue self) eqn:Hq.
    + injection Hc as <- <-. by rewrite pipeline_set_worker_idle.
    + assert (self1 = (Resource.__process_next self).1) as -> by (by rewrite Hc).
      rewrite pipeline_set_worker_idle.
      * apply pipeline_process_next.
      * by rewrite executing_process_next.
Qed.

Lemma pipeline_moves self self' :
  moves time_sleep self self' → ∃ new, pipeline self' = pipeline self ++ new.
Proof.
  intros (l & fl & fl' & Hstep). destruct l; simpl in Hstep.
  - injection Hstep as <- <-. apply pipeline_request.
  - destruct (pickup self) as [s1|] eqn:Hp; simplify_eq/=.
    exists []. rewrite app_nil_r. by eapply pipeline_pickup.
  - exists []. rewrite app_nil_r. by eapply pipeline_finish.
  - destruct (callback self) as [[s1 r]|] eqn:Hc; simplify_eq/=.
    exists []. rewrite app_nil_r. by eapply pipeline_callback.
  - injection Hstep as <- <-. exists []. by rewrite app_nil_r.
Qed.

Lemma pipeline_steps self self' :
  rtc (moves time_sleep) self self' → ∃ new, pipeline self' = pipeline self ++ new.
Proof.
  induction 1 as [self|self mid self' Hm _ [new2 IH]].
  - exists []. by rewrite app_nil_r.
  - destruct (pipeline_moves _ _ Hm) as [new1 H1].
    exists (new1 ++ new2). by rewrite IH, H1, app_assoc.
Qed.

End WorkerFacts.

(** ** The fused pair *)

Lemma dispatch_if_idle_ok self : (dispatch_if_idle self).2 = Ok tt.
Proof.
  unfold dispatch_if_idle, bind, get; simpl.
  destruct (active self); [done|].
  unfold Resource.__process_next, bind, get; simpl.
  destruct (queue self); simpl; by destruct (_stopping self).
Qed.

Lemma request_fused_effect self process_id d0 d1 ds event :
  name self = "arm"%string →
  let call := Resource.request process_id "0x500" (d0 :: d1 :: ds) event self in
  call.2 = Ok tt
  ∧ pipeline call.1
    = pipeline self ++ [(process_id, "0x500"%string, d0, None);
                        (process_id, "0x600"%string, d1, Some event)].
Proof.
  intros Hnm call. unfold call. rewrite request_fused_eq by done. split.
  - apply dispatch_if_idle_ok.
  - rewrite pipeline_dispatch_if_idle, pipeline_set_queue.
    unfold pipeline. by rewrite <- !app_assoc.
Qed.

(** C2: a call of [request] on the resource named "arm" with opcode
    "0x500" and the two durations [d0], [d1] is one transition that appends
    exactly two entries, next to each other, to the queue before the
    dispatcher looks at it: [(process_id, "0x500", d0, None)] and
    [(process_id, "0x600", d1, event)]; the call returns normally; and
    whatever the resource does afterwards, the two entries stay next to
    each other in its pipeline (executed, running, handed over, queued), so
    no other request comes between them. *)
Theorem request_fused_pair (time_sleep : Z → Result unit) (self : Resource)
    (process_id : nat) (d0 d1 : Z) (ds : list Z) (event : Event) :
  name self = "arm"%string →
  let first := (process_id, "0x500"%string, d0, @None Event) in
  let second := (process_id, "0x600"%string, d1, Some event) in
  let call := Resource.request process_id "0x500" (d0 :: d1 :: ds) event self in
  call = dispatch_if_idle (set_queue (queue self ++ [first; second]) self)
  ∧ call.2 = Ok tt
  ∧ pipeline call.1 = pipeline self ++ [first; second]
  ∧ ∀ self', rtc (moves time_sleep) call.1 self' →
      ∃ later, pipeline self' = pipeline self ++ first :: second :: later.
Proof.
  intros Hnm first second call.
  destruct (request_fused_effect self process_id d0 d1 ds event Hnm)
    as [Hok Hpipe].
  split_and!; [by apply request_fused_eq|done|done|].
  intros self' Hsteps.
  destruct (pipeline_steps time_sleep _ _ Hsteps) as [later Hlater].
  exists later. rewrite Hlater. unfold call. by rewrite Hpipe, <- app_assoc.
Qed.

Lemma request_fused_pair_witness :
  let self := Resource.init "arm" in
  let call := Resource.request 0 "0x500" [5; 15] 0%nat self in
  call.2 = Ok tt
  ∧ pipeline call.1 = [(0%nat, "0x500"%string, 5, None); (0%nat, "0x600"%string, 15, Some 0%nat)].
Proof.
  pose proof (request_fused_pair py_sleep (Resource.init "arm") 0 5 15 [] 0%nat
                eq_refl) as (_ & Hok & Hpipe & _).
  split; [exact Hok | exact Hpipe].
Defined.

(** ** First in, first out *)

Lemma done_log_pipeline self n x :
  done_log (executor self) !! n = Some x → pipeline self !! n = Some x.
Proof. intros H. unfold pipeline. by apply lookup_app_l_Some. Qed.

Lemma process_next_pops_head self item rest :
  queue self = item :: rest → _stopping self = false →
  (Resource.__process_next self).1
  = mkResource (name self) true rest false
      (mkExecutor (work_queue (executor self) ++ [item])
         (worker (executor self)) (done_log (executor self))).
Proof.
  destruct self as [nm act q stop ex]; simpl. intros -> ->. done.
Qed.

(** C4: a request that is not the fused one is appended to the tail of the
    queue, and the dispatcher takes the head of the queue; so of two such
    requests made one after the other on a resource, by any processes and
    with any moves of the resource in between and afterwards, the first is
    the [na]-th entry to complete and the second the [nb]-th with
    [na < nb]: the second has completed only if the first has, before it. *)
Theorem fifo_completion_order (time_sleep : Z → Result unit)
    (self0 self2 self4 : Resource)
    (pid_a pid_b : nat) (op_a op_b : string) (d_a d_b : Z) (ds_a ds_b : list Z)
    (ev_a ev_b : Event) :
  is_fused (name self0) op_a = false →
  is_fused (name self2) op_b = false →
  let a := (pid_a, op_a, d_a, Some ev_a) in
  let b := (pid_b, op_b, d_b, Some ev_b) in
  let call_a := Resource.request pid_a op_a (d_a :: ds_a) ev_a self0 in
  let call_b := Resource.request pid_b op_b (d_b :: ds_b) ev_b self2 in
  rtc (moves time_sleep) call_a.1 self2 →
  rtc (moves time_sleep) call_b.1 self4 →
  let na := length (pipeline self0) in
  let nb := length (pipeline self2) in
  call_a = dispatch_if_idle (set_queue (queue self0 ++ [a]) self0)
  ∧ call_b = dispatch_if_idle (set_queue (queue self2 ++ [b]) self2)
  ∧ (∀ self item rest, queue self = item :: rest → _stopping self = false →
       queue (Resource.__process_next self).1 = rest
       ∧ work_queue (executor (Resource.__process_next self).1)
         = work_queue (executor self) ++ [item])
  ∧ (na < nb)%nat
  ∧ (∀ x, done_log (executor self4) !! na = Some x → x = a)
  ∧ (∀ x, done_log (executor self4) !! nb = Some x →
       x = b ∧ done_log (executor self4) !! na = Some a).
Proof.
  intros Hfa Hfb a b call_a call_b Hab Hb4 na nb.
  assert (call_a = dispatch_if_idle (set_queue (queue self0 ++ [a]) self0))
    as Hca by (by apply request_plain_eq).
  assert (call_b = dispatch_if_idle (set_queue (queue self2 ++ [b]) self2))
    as Hcb by (by apply request_plain_eq).
  assert (pipeline call_a.1 = pipeline self0 ++ [a]) as Hpa.
  { rewrite Hca, pipeline_dispatch_if_idle, pipeline_set_queue.
    unfold pipeline. by rewrite <- !app_assoc. }
  assert (pipeline call_b.1 = pipeline self2 ++ [b]) as Hpb.
  { rewrite Hcb, pipeline_dispatch_if_idle, pipeline_set_queue.
    unfold pipeline. by rewrite <- !app_assoc. }
  destruct (pipeline_steps time_sleep _ _ Hab) as [mid Hmid].
  destruct (pipeline_steps time_sleep _ _ Hb4) as [later Hlater].
  rewrite Hpa in Hmid. rewrite Hpb, Hmid in Hlater.
  assert (na < nb)%nat as Hlt.
  { unfold na, nb. rewrite Hmid, !length_app. simpl. lia. }
  assert (pipeline self4 !! na = Some a) as Hna.
  { rewrite Hlater, <- !app_assoc. by apply list_lookup_middle. }
  assert (pipeline self4 !! nb = Some b) as Hnb.
  { rewrite Hlater, <- (app_assoc _ [b]). apply list_lookup_middle.
    unfold nb. by rewrite Hmid. }
  split_and!; try done.
  - intros self item rest Hq Hs. by rewrite (process_next_pops_head _ _ _ Hq Hs).
  - intros x Hx. apply done_log_pipeline in Hx.
    assert (Some a = Some x) as [= <-] by (rewrite <- Hna; exact Hx). done.
  - intros x Hx. pose proof (done_log_pipeline _ _ _ Hx) as Hp.
    assert (Some b = Some x) as [= <-] by (rewrite <- Hnb; exact Hp).
    split; [done|].
    destruct (done_log (executor self4) !! na) as [y|] eqn:Hy.
    + pose proof (done_log_pipeline _ _ _ Hy) as Hq.
      assert (Some a = Some y) as [= <-] by (rewrite <- Hna; exact Hq). done.
    + apply lookup_ge_None in Hy. apply lookup_lt_Some in Hx.
      unfold na, nb in *. lia.
Qed.

Lemma exec_rtc time_sleep tr self flags self' flags' :
  exec time_sleep tr (self, flags) = Some (self', flags') →
  rtc (moves time_sleep) self self'.
Proof.
  revert self flags. induction tr as [|l tr IH]; intros self flags Hex.
  - simpl in Hex. injection Hex as <- <-. apply rtc_refl.
  - change (step time_sleep l (self, flags) ≫= exec time_sleep tr
            = Some (self', flags')) in Hex.
    destruct (step time_sleep l (self, flags)) as [[mid fl]|] eqn:Hst;
      simpl in Hex; [|done].
    eapply rtc_l; [|by eapply IH].
    by exists l, flags, fl.
Qed.

Lemma fifo_completion_order_witness :
  let a := (0%nat, "0x100"%string, 10, Some 0%nat) in
  let b := (1%nat, "0x200"%string, 20, Some 1%nat) in
  let self4 := mkResource "inc" true [] false
                 (mkExecutor [] (Completing b None) [a; b]) in
  exec py_sleep [Pickup; Finish; Callback; Pickup; Finish]
    ((Resource.request 1 "0x200" [20] 1%nat
        (Resource.request 0 "0x100" [10] 0%nat (Resource.init "inc")).1).1, ∅)
  = Some (self4, {[1%nat]} ∪ ({[0%nat]} ∪ ∅))
  ∧ done_log (executor self4) !! 0%nat = Some a
  ∧ done_log (executor self4) !! 1%nat = Some b.
Proof.
  intros a b self4.
  assert (exec py_sleep [Pickup; Finish; Callback; Pickup; Finish]
            ((Resource.request 1 "0x200" [20] 1%nat
                (Resource.request 0 "0x100" [10] 0%nat (Resource.init "inc")).1).1, ∅)
          = Some (self4, {[1%nat]} ∪ ({[0%nat]} ∪ ∅))) as Hexec by reflexivity.
  pose proof (fifo_completion_order py_sleep (Resource.init "inc")
                (Resource.request 0 "0x100" [10] 0%nat (Resource.init "inc")).1
                self4 0 1 "0x100" "0x200" 10 20 [] [] 0%nat 1%nat
                eq_refl eq_refl (rtc_refl _ _) (exec_rtc _ _ _ _ _ _ Hexec)) as H.
  simpl in H. destruct H as (_ & _ & _ & _ & _ & H).
  destruct (H b eq_refl) as [_ Ha].
  split_and!; [exact Hexec | exact Ha | reflexivity].
Defined.

(** ** One request at a time *)

Lemma request_shape self process_id operation duration event :
  ∃ q, (Resource.request process_id operation duration event self).1 = set_queue q self
       ∨ (Resource.request process_id operation duration event self).1
         = (dispatch_if_idle (set_queue q self)).1.
Proof.
  destruct (is_fused (name self) operation) eqn:Hf.
  - apply andb_true_iff in Hf as [Hn%String.eqb_eq Ho%String.eqb_eq].
    subst operation. destruct duration as [|d0 [|d1 ds]].
    + exists (queue self). left.
      unfold Resource.request, bind, get; simpl. rewrite Hn. by destruct self.
    + exists (queue self ++ [(process_id, "0x500"%string, d0, None)]). left.
      unfold Resource.request, bind, get; simpl. by rewrite Hn.
    + eexists. right. by rewrite request_fused_eq.
  - destruct duration as [|d ds].
    + exists (queue self). left.
      unfold Resource.request, bind, get; simpl. unfold is_fused in Hf.
      rewrite Hf. by destruct self.
    + eexists. right. by rewrite request_plain_eq.
Qed.

Lemma one_at_a_time_set_queue q self :
  one_at_a_time self → one_at_a_time (set_queue q self).
Proof. done. Qed.

Lemma one_at_a_time_dispatch_if_idle self :
  one_at_a_time self → one_at_a_time (dispatch_if_idle self).1.
Proof.
  destruct self as [nm act q stop [wq w dl]].
  unfold one_at_a_time, dispatch_if_idle, bind, get; simpl.
  intros [Hw Hact]. destruct act; [done|].
  destruct (Hact eq_refl) as [-> ->].
  unfold Resource.__process_next, bind, get; simpl.
  destruct q as [|item rest]; [done|]. destruct stop; [done|]. simpl.
  split; [lia|done].
Qed.

Section OneAtATime.

Variable time_sleep : Z → Result unit.

Lemma one_at_a_time_moves self self' :
  one_at_a_time self → moves time_sleep self self' → one_at_a_time self'.
Proof.
  intros Hinv (l & fl & fl' & Hstep).
  destruct l as [pid op dur ev| | | |]; simpl in Hstep.
  - injection Hstep as <- <-.
    destruct (request_shape self pid op dur ev)
      as [q [-> | ->]].
    + by apply one_at_a_time_set_queue.
    + by apply one_at_a_time_dispatch_if_idle, one_at_a_time_set_queue.
  - destruct (pickup self) as [s1|] eqn:Hp; simplify_eq/=.
    destruct self as [nm act q stop [wq w dl]].
    unfold pickup in Hp; simpl in Hp. destruct Hinv as [Hw Hact]; simpl in *.
    destruct w; try done. destruct wq as [|item rest]; [done|].
    injection Hp as <-. unfold one_at_a_time; simpl. split.
    + destruct rest; [done|]. simpl in Hw. lia.
    + intros ->. by destruct (Hact eq_refl).
  - destruct self as [nm act q stop [wq w dl]].
    unfold finish in Hstep; simpl in Hstep. destruct Hinv as [Hw Hact]; simpl in *.
    destruct w as [|[[[pid1 op1] d1] ev1]|]; try done.
    destruct (__execute _ _ _ _ _ _) as [fl1 r]. injection Hstep as <- <-.
    unfold one_at_a_time; simpl. split; [done|].
    intros ->. by destruct (Hact eq_refl).
  - destruct (callback self) as [[s1 r]|] eqn:Hc; simplify_eq/=.
    destruct self as [nm act q stop [wq w dl]].
    unfold callback in Hc; simpl in Hc. destruct Hinv as [Hw Hact]; simpl in *.
    destruct w as [| |item exc]; try done. subst wq.
    destruct act; [|by destruct (Hact eq_refl)].
    destruct exc as [e|]; simpl in Hc.
    + injection Hc as <- <-. unfold one_at_a_time; simpl. split; [lia|done].
    + unfold bind, get in Hc; simpl in Hc. destruct q as [|head rest].
      * injection Hc as <- <-. unfold one_at_a_time; simpl. split; [lia|done].
      * unfold Resource.__process_next, bind, get in Hc; simpl in Hc.
        destruct stop; injection Hc as <- <-; unfold one_at_a_time; simpl;
          (split; [lia|done]).
  - injection Hstep as <- <-. done.
Qed.

Lemma one_at_a_time_reachable nm self :
  reachable time_sleep nm self → one_at_a_time self.
Proof.
  unfold reachable. intros Hr.
  assert (one_at_a_time (Resource.init nm)) as Hinit.
  { unfold one_at_a_time; simpl. split; [lia|done]. }
  revert Hinit. induction Hr as [|x y z Hm _ IH]; [done|].
  intros Hx. apply IH. by eapply one_at_a_time_moves.
Qed.

Lemma in_flight_bound self :
  one_at_a_time self →
  (length (in_flight self) ≤ 1)%nat ∧ (active self = false → in_flight self = []).
Proof.
  destruct self as [nm act q stop [wq w dl]].
  unfold one_at_a_time, in_flight, executing; simpl. intros [Hw Hact]. split.
  - destruct w; subst; simpl; lia.
  - intros ->. by destruct (Hact eq_refl) as [-> ->].
Qed.

Lemma dispatched_set_queue q self : dispatched (set_queue q self) = dispatched self.
Proof. done. Qed.

Lemma dispatched_dispatch_if_idle self :
  active self = true → dispatched (dispatch_if_idle self).1 = dispatched self.
Proof. unfold dispatch_if_idle, bind, get; simpl. by intros ->. Qed.

End OneAtATime.

(** C5: in every state a resource can reach, at most one entry taken from
    its queue is with the pool (running or waiting for the pool thread), and
    none is when [active] is false; and a move hands an entry to the pool
    only when none is there: either a [request] that found the resource not
    active, or the done callback of the entry that just ended, which takes
    the next entry in the same transition that records the completion. *)
Theorem at_most_one_executing (time_sleep : Z → Result unit) (nm : string)
    (self : Resource) :
  reachable time_sleep nm self →
  (length (in_flight self) ≤ 1)%nat
  ∧ (active self = false → in_flight self = [])
  ∧ ∀ l flags self' flags',
      step time_sleep l (self, flags) = Some (self', flags') →
      dispatched self' ≠ dispatched self →
      in_flight self = []
      ∧ ((∃ process_id operation duration event,
            l = Request process_id operation duration event ∧ active self = false)
         ∨ (l = Callback
            ∧ ∃ item, worker (executor self) = Completing item None)).
Proof.
  intros Hr. pose proof (one_at_a_time_reachable _ _ _ Hr) as Hinv.
  destruct (in_flight_bound _ Hinv) as [Hlen Hidle].
  split_and!; [done..|].
  intros l fl self' fl' Hstep Hne.
  destruct l as [pid op dur ev| | | |]; simpl in Hstep.
  - injection Hstep as <- <-.
    destruct (active self) eqn:Hact.
    + exfalso. apply Hne.
      destruct (request_shape self pid op dur ev)
        as [q [-> | ->]]; [done|].
      by rewrite dispatched_dispatch_if_idle.
    + split; [by apply Hidle|]. left. by eexists _, _, _, _.
  - exfalso. apply Hne.
    destruct (pickup self) as [s1|] eqn:Hp; simplify_eq/=.
    destruct self as [nm' act q stop [wq w dl]].
    unfold pickup in Hp; simpl in Hp.
    destruct w; try done. destruct wq as [|item rest]; [done|].
    by injection Hp as <-.
  - exfalso. apply Hne.
    destruct self as [nm' act q stop [wq w dl]].
    unfold finish in Hstep; simpl in Hstep.
    destruct w as [|[[[pid1 op1] d1] ev1]|]; try done.
    destruct (__execute _ _ _ _ _ _) as [fl1 r]. injection Hstep as <- <-.
    unfold dispatched, in_flight, executing; simpl. by rewrite <- app_assoc.
  - destruct (callback self) as [[s1 r]|] eqn:Hc; simplify_eq/=.
    destruct self as [nm' act q stop [wq w dl]].
    unfold callback in Hc; simpl in Hc.
    destruct Hinv as [Hw Hact]; simpl in *.
    destruct w as [| |item exc]; try done. subst wq.
    destruct exc as [e|]; simpl in Hc.
    + injection Hc as <- <-. by exfalso.
    + split; [done|]. right. split; [done|]. by exists item.
  - injection Hstep as <- <-. by exfalso.
Qed.

Lemma at_most_one_executing_witness :
  let self := mkResource "inc" true [(1%nat, "0x200"%string, 20, Some 1%nat)] false
                (mkExecutor [] (Executing (0%nat, "0x100"%string, 10, Some 0%nat)) []) in
  (length (in_flight self) ≤ 1)%nat.
Proof.
  intros self.
  refine (proj1 (at_most_one_executing py_sleep "inc" self _)).
  apply (exec_rtc py_sleep
           [Request 0 "0x100" [10] 0%nat; Request 1 "0x200" [20] 1%nat; Pickup]
           _ ∅ _ ∅).
  reflexivity.
Defined.

(** ** A failing execution *)

Lemma execute_flags time_sleep process_id operation duration event flags :
  __execute time_sleep process_id operation duration event flags
  = (match event with Some ev => {[ev]} ∪ flags | None => flags end,
     time_sleep duration).
Proof. unfold __execute, try_finally. by destruct event. Qed.

(** ** What holds in every state of the cluster *)

Lemma name_request self process_id operation duration event :
  name (Resource.request process_id operation duration event self).1 = name self.
Proof.
  destruct (request_shape self process_id operation duration event)
    as [q [-> | ->]]; [done|].
  unfold dispatch_if_idle, bind, get; simpl. destruct (active self); [done|].
  unfold Resource.__process_next, bind, get; simpl.
  destruct q; [done|]. by destruct (_stopping self).
Qed.

Lemma name_moves time_sleep self self' :
  moves time_sleep self self' → name self' = name self.
Proof.
  intros (l & fl & fl' & Hstep).
  destruct l as [pid op dur ev| | | |]; simpl in Hstep.
  - injection Hstep as <- <-. apply name_request.
  - destruct (pickup self) as [s1|] eqn:Hp; simplify_eq/=.
    unfold pickup in Hp. destruct (worker (executor self)); try done.
    destruct (work_queue (executor self)); [done|]. by injection Hp as <-.
  - unfold finish in Hstep.
    destruct (worker (executor self)) as [|[[[pid1 op1] d1] ev1]|]; try done.
    destruct (__execute _ _ _ _ _ _) as [fl1 r]. by injection Hstep as <- <-.
  - destruct (callback self) as [[s1 r]|] eqn:Hc; simplify_eq/=.
    unfold callback in Hc.
    destruct (worker (executor self)) as [| |item exc]; try done.
    destruct exc as [e|]; simpl in Hc; [by injection Hc as <- <-|].
    unfold bind, get in Hc; simpl in Hc.
    destruct (queue self) as [|head rest] eqn:Hq; [by injection Hc as <- <-|].
    unfold Resource.__process_next, bind, get in Hc; simpl in Hc.
    rewrite Hq in Hc. by destruct (_stopping self); injection Hc as <- <-.
  - by injection Hstep as <- <-.
Qed.

Lemma registry_lookup_some (key : string) (self : Resource) :
  registry !! key = Some self ↔ key ∈ RESOURCE_TYPES ∧ self = Resource.init key.
Proof.
  unfold registry. rewrite lookup_set_to_map by (by intros ?? _ _ [=]).
  split.
  - by intros (res & Hin & [= -> <-]).
  - intros [Hin ->]. by exists key.
Qed.

Lemma registry_ok_registry time_sleep : registry_ok time_sleep registry.
Proof.
  split.
  - apply set_eq. intros key. rewrite elem_of_dom. split.
    + intros [self Hs]. by apply registry_lookup_some in Hs as [? _].
    + intros Hin. exists (Resource.init key). by apply registry_lookup_some.
  - intros key self [_ ->]%registry_lookup_some. split; [done|apply rtc_refl].
Qed.

Lemma registry_ok_insert time_sleep rm key self self' :
  registry_ok time_sleep rm → rm !! key = Some self →
  moves time_sleep self self' →
  registry_ok time_sleep (<[key := self']> rm).
Proof.
  intros [Hdom Hall] Hkey Hm. split.
  - rewrite dom_insert_L, <- Hdom. apply subseteq_union_1_L.
    apply singleton_subseteq_l. by eapply elem_of_dom_2.
  - intros key' s. destruct (decide (key = key')) as [<-|Hne].
    + rewrite lookup_insert_eq. intros [= <-].
      destruct (Hall _ _ Hkey) as [Hn Hr]. split.
      * by rewrite (name_moves _ _ _ Hm).
      * by eapply rtc_r.
    + rewrite lookup_insert_ne by done. apply Hall.
Qed.

(** The body of the loop, case by case. *)
Lemma run_body_unfold self i c :
  Process.run_body self i c =
  match operations self !! i with
  | None => (c, Raise IndexError)
  | Some (resource_type, operation, duration) =>
      match resource_manager c !! resource_type with
      | None => (c, Raise (KeyError resource_type))
      | Some resource =>
          let event := next_event c in
          let c1 := mkCluster (resource_manager c) (flags c) (S event) (threads c) in
          let submit (i' : nat) (durations : list Z) :=
            let call := Resource.request (process_id self) operation durations
                          event resource in
            (set_resource_manager (<[resource_type := call.1]> (resource_manager c)) c1,
             match call.2 with
             | Ok _ => Ok (i', event)
             | Raise e => Raise e
             end) in
          if is_fused resource_type operation then
            match operations self !! (i + 1)%nat with
            | None => (c1, Raise IndexError)
            | Some nxt => submit (i + 1)%nat [duration; nxt.2]
            end
          else submit i [duration]
      end
  end.
Proof.
  unfold Process.run_body, bind, index.
  destruct (operations self !! i) as [[[rt op] d]|]; [|done]. simpl.
  unfold registry_lookup, on_resource.
  destruct (resource_manager c !! rt) as [res|] eqn:Hres; [|done]. simpl.
  unfold is_fused. destruct ((rt =? "arm")%string && (op =? "0x500")%string).
  - destruct (operations self !! (i + 1)%nat) as [nxt|]; [|done]. simpl.
    rewrite Hres.
    by destruct (Resource.request (process_id self) op [d; nxt.2] (next_event c) res)
      as [res' [[]|e]].
  - simpl. rewrite Hres.
    by destruct (Resource.request (process_id self) op [d] (next_event c) res)
      as [res' [[]|e]].
Qed.

Section ClusterFacts.

Variable time_sleep : Z → Result unit.

Lemma moves_request self process_id operation duration event :
  moves time_sleep self
    (Resource.request process_id operation duration event self).1.
Proof. by exists (Request process_id operation duration event), ∅, ∅. Qed.

Lemma run_body_effect self i c c' r :
  registry_ok time_sleep (resource_manager c) →
  Process.run_body self i c = (c', r) →
  registry_ok time_sleep (resource_manager c')
  ∧ flags c' = flags c ∧ threads c' = threads c.
Proof.
  intros Hreg. rewrite run_body_unfold.
  destruct (operations self !! i) as [[[rt op] d]|]; [|by intros [= <- <-]].
  destruct (resource_manager c !! rt) as [res|] eqn:Hres; [|by intros [= <- <-]].
  simpl. destruct (is_fused rt op).
  - destruct (operations self !! (i + 1)%nat) as [nxt|]; intros [= <- <-]; simpl;
      [|done].
    split; [|done]. eapply registry_ok_insert; [done..|]. apply moves_request.
  - intros [= <- <-]; simpl.
    split; [|done]. eapply registry_ok_insert; [done..|]. apply moves_request.
Qed.

Lemma cluster_step_work res l c c' :
  cluster_step time_sleep (Work res l) c = Some c' →
  ∃ self self' fl',
    resource_manager c !! res = Some self
    ∧ step time_sleep l (self, flags c) = Some (self', fl')
    ∧ c' = set_flags fl'
             (set_resource_manager (<[res := self']> (resource_manager c)) c).
Proof.
  unfold cluster_step.
  destruct l as [pid op dur ev| | | |]; [done|..];
    (destruct (resource_manager c !! res) as [self|]; [|done]);
    cbn [mbind option_bind];
    match goal with
    | |- context [step ?ts ?l ?st] =>
        destruct (step ts l st) as [[self' fl']|] eqn:Hst; [|done]
    end;
    intros [= <-]; by eexists _, _, _.
Qed.

Lemma run_body_frame self i c c' r :
  Process.run_body self i c = (c', r) →
  flags c' = flags c ∧ threads c' = threads c.
Proof.
  rewrite run_body_unfold.
  destruct (operations self !! i) as [[[rt op] d]|]; [|by intros [= <- <-]].
  destruct (resource_manager c !! rt) as [res|]; [|by intros [= <- <-]].
  simpl. destruct (is_fused rt op).
  - by destruct (operations self !! (i + 1)%nat) as [nxt|]; intros [= <- <-].
  - by intros [= <- <-].
Qed.

Lemma run_step_frame now r c r' c' :
  Process.run_step now r c = Some (r', c') →
  flags c' = flags c ∧ threads c' = threads c.
Proof.
  unfold Process.run_step. destruct (control r) as [|i|i ev| |e]; try done.
  - by intros [= <- <-].
  - case_bool_decide; [|by intros [= <- <-]].
    destruct (Process.run_body (proc r) i c) as [c1 [[i' ev]|e]] eqn:Hb;
      intros [= <- <-]; by eapply run_body_frame.
  - destruct (is_set (flags c) ev); [|done]. by intros [= <- <-].
Qed.

(** A thread that has caught an exception stays as it is. *)
Lemma caught_stays tr c c' k r e :
  cluster_exec time_sleep tr c = Some c' →
  threads c !! k = Some r → control r = Caught e →
  threads c' !! k = Some r.
Proof.
  revert c. induction tr as [|l tr IH]; intros c Hex Hk Hctl.
  - by injection Hex as <-.
  - change (cluster_step time_sleep l c ≫= cluster_exec time_sleep tr = Some c') in Hex.
    destruct (cluster_step time_sleep l c) as [c1|] eqn:Hstep; [|done].
    simpl in Hex. apply (IH c1); [done| |done].
    destruct l as [k' now|res l].
    + simpl in Hstep. destruct (threads c !! k') as [r0|] eqn:Hk'; [|done].
      simpl in Hstep.
      destruct (Process.run_step now r0 c) as [[r1 c2]|] eqn:Hrs; [|done].
      simpl in Hstep. injection Hstep as <-. simpl.
      destruct (run_step_frame _ _ _ _ _ Hrs) as [_ ->].
      destruct (decide (k' = k)) as [->|Hne].
      * rewrite Hk in Hk'. injection Hk' as <-.
        unfold Process.run_step in Hrs. by rewrite Hctl in Hrs.
      * by rewrite list_lookup_insert_ne.
    + destruct (cluster_step_work _ _ _ _ Hstep) as (? & ? & ? & _ & _ & ->).
      done.
Qed.

Lemma run_step_effect now r c r' c' :
  registry_ok time_sleep (resource_manager c) →
  Process.run_step now r c = Some (r', c') →
  registry_ok time_sleep (resource_manager c')
  ∧ flags c' = flags c ∧ threads c' = threads c
  ∧ process_id (proc r') = process_id (proc r)
  ∧ operations (proc r') = operations (proc r)
  ∧ (times_ok r → times_ok r').
Proof.
  intros Hreg. unfold Process.run_step.
  destruct r as [self ctl]; simpl. destruct ctl as [|i|i ev| |e]; try done.
  - intros [= <- <-]. split_and!; try done.
    unfold times_ok; simpl. intros [_ ->]. split; [by eexists|done].
  - case_bool_decide.
    + destruct (Process.run_body self i c) as [c1 [[i' ev]|e]] eqn:Hb;
        intros [= <- <-];
        destruct (run_body_effect _ _ _ _ _ Hreg Hb) as (? & ? & ?);
        by split_and!.
    + intros [= <- <-]. split_and!; try done.
      unfold times_ok; simpl. intros [Hs _]. split; [done|by eexists].
  - destruct (is_set (flags c) ev); [|done]. intros [= <- <-]. by split_and!.
Qed.

Lemma cluster_ok_started loaded : cluster_ok time_sleep loaded (started loaded).
Proof.
  split; [apply registry_ok_registry|].
  intros k r. unfold started; simpl. rewrite list_lookup_imap.
  destruct (loaded !! k) as [ops|] eqn:Hk; [|done]. simpl.
  intros [= <-]. by split_and!.
Qed.

Lemma cluster_ok_step loaded l c c' :
  cluster_ok time_sleep loaded c → cluster_step time_sleep l c = Some c' →
  cluster_ok time_sleep loaded c'.
Proof.
  intros [Hreg Hth]. destruct l as [k now|res l].
  - simpl. destruct (threads c !! k) as [r|] eqn:Hk; [|done]. simpl.
    destruct (Process.run_step now r c) as [[r' c1]|] eqn:Hstep; [|done]. simpl.
    intros [= <-].
    destruct (run_step_effect _ _ _ _ _ Hreg Hstep)
      as (Hreg1 & _ & Hth1 & Hpid & Hops & Htimes).
    split; [done|]. simpl. rewrite Hth1. intros k' r0.
    destruct (decide (k = k')) as [<-|Hne].
    + rewrite list_lookup_insert_eq by (by eapply lookup_lt_Some).
      intros [= <-]. destruct (Hth _ _ Hk) as (? & ? & ?).
      split_and!; [congruence|congruence|by apply Htimes].
    + rewrite list_lookup_insert_ne by done. apply Hth.
  - intros Hstep.
    destruct (cluster_step_work _ _ _ _ Hstep)
      as (self & self' & fl' & Hres & Hst & ->).
    split; [|done]. simpl.
    eapply registry_ok_insert; [done..|]. by eexists _, _, _.
Qed.

Lemma cluster_ok_reachable loaded c :
  cluster_reachable time_sleep loaded c → cluster_ok time_sleep loaded c.
Proof.
  intros [tr Hex]. pose proof (cluster_ok_started loaded) as Hok.
  revert Hex Hok. generalize (started loaded).
  induction tr as [|l tr IH]; intros c0 Hex Hok.
  - by injection Hex as <-.
  - change (cluster_step time_sleep l c0 ≫= cluster_exec time_sleep tr = Some c) in Hex.
    destruct (cluster_step time_sleep l c0) as [c1|] eqn:Hstep; [|done].
    simpl in Hex. eapply IH; [done|]. by eapply cluster_ok_step.
Qed.

(** Every resource of the cluster is in a state its own moves reach, so
    what holds of a resource alone holds of it in the cluster. *)
Corollary cluster_resource_bound loaded c key self :
  cluster_reachable time_sleep loaded c →
  resource_manager c !! key = Some self →
  name self = key
  ∧ (length (in_flight self) ≤ 1)%nat
  ∧ (active self = false → in_flight self = []).
Proof.
  intros Hreach Hkey.
  destruct (cluster_ok_reachable _ _ Hreach) as [[_ Hall] _].
  destruct (Hall _ _ Hkey) as [Hname Hr]. split; [done|].
  by eapply in_flight_bound, one_at_a_time_reachable.
Qed.

End ClusterFacts.

(** ** A failing execution is dropped *)

(** C3 does not hold of the code.  In a state of a run where the pool
    thread of the resource [key] executes the entry [(pid, op, d, ev)] and
    [time.sleep] raises [e] on [d], the end of the execution stores [e] in
    the future and sets [ev], which leaves the flags exactly as the end of
    an execution that returns does: the event carries no failure.  The
    done callback raises [Exception e] on the pool thread, where it is
    dropped: the callback takes no entry from the queue and leaves the
    resource active with nothing at its pool.  The thread of [Process.run]
    that waits on [ev] goes on at the head of its loop with the next index,
    before the callback as after it: it catches nothing. *)
Theorem worker_failure_dropped (time_sleep : Z → Result unit)
    (loaded : list (list Operation)) (c : Cluster) (key : string)
    (self : Resource) (pid : nat) (op : string) (d : Z) (ev : Event) (e : Exn)
    (k : nat) (r : Runner) (i : nat) (now : Z) :
  cluster_reachable time_sleep loaded c →
  resource_manager c !! key = Some self →
  worker (executor self) = Executing (pid, op, d, Some ev) →
  time_sleep d = Raise e →
  threads c !! k = Some r →
  control r = Blocked i ev →
  let item := (pid, op, d, Some ev) in
  let failed :=
    set_executor (mkExecutor (work_queue (executor self)) (Completing item (Some e))
                    (done_log (executor self) ++ [item])) self in
  let dropped := set_worker Idle failed in
  let c1 := mkCluster (<[key := failed]> (resource_manager c)) ({[ev]} ∪ flags c)
              (next_event c) (threads c) in
  let c2 := mkCluster (<[key := dropped]> (resource_manager c)) ({[ev]} ∪ flags c)
              (next_event c) (threads c) in
  let resumed := <[k := mkRunner (proc r) (LoopHead (i + 1))]> (threads c) in
  cluster_step time_sleep (Work key Finish) c = Some c1
  ∧ (∀ returning : Z → Result unit, returning d = Ok tt →
       flags <$> cluster_step returning (Work key Finish) c = Some (flags c1))
  ∧ callback failed = Some (dropped, Raise (Exception e))
  ∧ cluster_step time_sleep (Work key Callback) c1 = Some c2
  ∧ stranded dropped
  ∧ queue dropped = queue self
  ∧ cluster_step time_sleep (Run k now) c1 = Some (set_threads resumed c1)
  ∧ cluster_step time_sleep (Run k now) c2 = Some (set_threads resumed c2).
Proof.
  intros Hreach Hkey Hw Hfail Hk Hctl item failed dropped c1 c2 resumed.
  destruct (cluster_ok_reachable _ _ _ Hreach) as [[_ Hall] _].
  destruct (Hall _ _ Hkey) as [_ Hr].
  destruct (one_at_a_time_reachable _ _ _ Hr) as [Hwq Hidle].
  rewrite Hw in Hwq.
  assert (active self = true) as Hact.
  { destruct (active self); [done|]. destruct (Hidle eq_refl) as [Hi _].
    by rewrite Hw in Hi. }
  assert (callback failed = Some (dropped, Raise (Exception e))) as Hcb by done.
  assert (∀ c', threads c' = threads c → flags c' = {[ev]} ∪ flags c →
            cluster_step time_sleep (Run k now) c' = Some (set_threads resumed c'))
    as Hrun.
  { intros c' Hth Hfl. simpl. rewrite Hth, Hk. simpl.
    unfold Process.run_step. rewrite Hctl, Hfl. unfold is_set.
    rewrite bool_decide_eq_true_2
      by (apply elem_of_union_l; by apply elem_of_singleton).
    simpl. by rewrite Hth. }
  split_and!.
  - simpl. rewrite Hkey. simpl. rewrite Hw, execute_flags, Hfail. done.
  - intros returning Hret. simpl. rewrite Hkey. simpl.
    rewrite Hw, execute_flags, Hret. done.
  - done.
  - simpl. rewrite lookup_insert_eq. simpl.
    unfold set_flags, set_resource_manager, c2; simpl. by rewrite insert_insert_eq.
  - split_and!; [done|done|]. simpl. done.
  - done.
  - by apply Hrun.
  - by apply Hrun.
Qed.

Lemma worker_failure_dropped_witness :
  let operations := [("inc", "0x100", -5); ("inc", "0x200", 3)]%string in
  let c := default (started [])
             (cluster_exec py_sleep [Run 0 1000; Run 0 1000; Work "inc" Pickup]
                (started [operations])) in
  let p := mkProcess 0 operations (Some 1000) None in
  let item := (0%nat, "0x100"%string, -5, Some 0%nat) in
  let self := mkResource "inc" true [] false (mkExecutor [] (Executing item) []) in
  let failed := mkResource "inc" true [] false
                  (mkExecutor [] (Completing item (Some ValueError)) [item]) in
  let c1 := mkCluster (<["inc"%string := failed]> (resource_manager c))
              ({[0%nat]} ∪ flags c) (next_event c) (threads c) in
  cluster_step py_sleep (Work "inc" Finish) c = Some c1
  ∧ callback failed = Some (set_worker Idle failed, Raise (Exception ValueError))
  ∧ cluster_step py_sleep (Run 0 1001) c1
    = Some (set_threads (<[0%nat := mkRunner p (LoopHead (0 + 1))]> (threads c)) c1).
Proof.
  intros operations c p item self failed c1.
  assert (cluster_reachable py_sleep [operations] c) as Hreach.
  { exists [Run 0 1000; Run 0 1000; Work "inc" Pickup]. vm_compute. reflexivity. }
  assert (resource_manager c !! "inc"%string = Some self) as Hkey
    by (vm_compute; reflexivity).
  assert (threads c !! 0%nat = Some (mkRunner p (Blocked 0 0%nat))) as Hk
    by (vm_compute; reflexivity).
  pose proof (worker_failure_dropped py_sleep [operations] c "inc" self 0 "0x100"
                (-5) 0%nat ValueError 0 (mkRunner p (Blocked 0 0%nat)) 0 1001
                Hreach Hkey eq_refl eq_refl Hk eq_refl)
    as (H1 & _ & H3 & _ & _ & _ & H7 & _).
  split_and!; [exact H1 | exact H3 | exact H7].
Defined.

(** The run of C3's failing input: process 0 has the operations
    [(inc, 0x100, -5); (inc, 0x200, 3)].  The execution of the first one
    fails with [ValueError], which the future holds while the event of the
    operation is set; after the done callback the thread of process 0 has
    gone on and requested the second operation, with nothing caught, and
    that request stays in the queue of a resource that is active with
    nothing at its pool: no move of the cluster is left. *)
Lemma worker_failure_not_observed :
  let operations := [("inc", "0x100", -5); ("inc", "0x200", 3)]%string in
  let item := (0%nat, "0x100"%string, -5, Some 0%nat) in
  let before := [Run 0 1000; Run 0 1000; Work "inc" Pickup] in
  let ended := before ++ [Work "inc" Finish] in
  let after := ended ++ [Work "inc" Callback; Run 0 1001; Run 0 1002] in
  py_sleep (-5) = Raise ValueError
  ∧ (c ← cluster_exec py_sleep before (started [operations]);
     self ← resource_manager c !! "inc"%string;
     Some (worker (executor self)))
    = Some (Executing item)
  ∧ (c ← cluster_exec py_sleep ended (started [operations]);
     self ← resource_manager c !! "inc"%string;
     Some (worker (executor self), elements (flags c), control <$> threads c))
    = Some (Completing item (Some ValueError), [0%nat], [Blocked 0 0%nat])
  ∧ (c ← cluster_exec py_sleep after (started [operations]);
     self ← resource_manager c !! "inc"%string;
     Some (self, threads c, elements (flags c)))
    = Some (mkResource "inc" true [(0%nat, "0x200"%string, 3, Some 1%nat)] false
              (mkExecutor [] Idle [item]),
            [mkRunner (mkProcess 0 operations (Some 1000) None) (Blocked 1 1%nat)],
            [0%nat])
  ∧ (c ← cluster_exec py_sleep after (started [operations]);
     Some ((λ l, bool_decide (is_Some (cluster_step py_sleep l c))) <$>
           [Run 0 1003; Work "inc" Pickup; Work "inc" Finish; Work "inc" Callback]))
    = Some [false; false; false; false].
Proof. vm_compute. done. Qed.

(** ** Downtime *)

Lemma charged_cons resource rt op d rest :
  charged resource ((rt, op, d) :: rest)
  = if decide (rt = resource) then d + charged resource rest
    else charged resource rest.
Proof.
  unfold charged. rewrite filter_cons. simpl. by destruct (decide (rt = resource)).
Qed.

Lemma charge_spec (operations : list Operation) (downtime : gmap string Z) :
  Forall (λ op : Operation, op.1.1 ∈ dom downtime) operations →
  ∃ m, Process.charge operations downtime = Ok m
       ∧ dom m = dom downtime
       ∧ ∀ resource v, downtime !! resource = Some v →
           m !! resource = Some (v - charged resource operations).
Proof.
  revert downtime. induction operations as [|[[rt op] d] rest IH];
    intros downtime Hall.
  - exists downtime. split_and!; [done..|].
    intros resource v ->. unfold charged; simpl. f_equal. lia.
  - apply Forall_cons in Hall as [Hin Hrest]. simpl in Hin.
    apply elem_of_dom in Hin as [v0 Hv0]. simpl. rewrite Hv0.
    assert (dom (<[rt := v0 - d]> downtime) = dom downtime) as Hdom.
    { rewrite dom_insert_L. apply subseteq_union_1_L.
      apply singleton_subseteq_l. by eapply elem_of_dom_2. }
    destruct (IH (<[rt := v0 - d]> downtime)) as (m & Hm & Hdm & Hval).
    { by rewrite Hdom. }
    exists m. split_and!; [done|congruence|].
    intros resource v Hv. rewrite charged_cons.
    destruct (decide (rt = resource)) as [->|Hne].
    + rewrite (Hval resource (v0 - d)) by apply lookup_insert_eq.
      f_equal. rewrite Hv in Hv0. injection Hv0 as ->. lia.
    + apply Hval. by rewrite lookup_insert_ne.
Qed.

Lemma get_downtime_spec (rm : gmap string Resource) (self : Process) (s e : Z) :
  start_time self = Some s → end_time self = Some e →
  Forall (λ op : Operation, op.1.1 ∈ dom rm) (operations self) →
  ∃ m, Process.get_downtime rm self = Ok m
       ∧ dom m = dom rm
       ∧ ∀ resource, resource ∈ dom rm →
           m !! resource = Some (e - s - charged resource (operations self)).
Proof.
  intros Hs He Hall. unfold Process.get_downtime. rewrite He, Hs.
  destruct (charge_spec (operations self) ((λ _ : Resource, e - s) <$> rm))
    as (m & Hm & Hdom & Hval).
  { by rewrite dom_fmap_L. }
  exists m. rewrite dom_fmap_L in Hdom. split_and!; [done..|].
  intros resource [res Hres]%elem_of_dom. apply Hval.
  by rewrite lookup_fmap, Hres.
Qed.

(** C8: while [end_time] is not set, [get_downtime] returns the empty
    dictionary. *)
Theorem get_downtime_unfinished (rm : gmap string Resource) (self : Process) :
  end_time self = None → Process.get_downtime rm self = Ok ∅.
Proof. intros He. unfold Process.get_downtime. by rewrite He. Qed.

Lemma get_downtime_unfinished_witness :
  Process.get_downtime registry
    (mkProcess 0 [("inc", "0x100", 10)]%string (Some 1000) None) = Ok ∅.
Proof. apply get_downtime_unfinished. reflexivity. Defined.

(** C1, as the code has it: for every process of a run whose [end_time] has
    been set and whose operations all name a resource of the registry,
    [get_downtime] returns a dictionary whose keys are exactly the names in
    the registry, and the value for a resource is
    [end_time - start_time] minus the durations of the operations of the
    process that name this resource, summed. *)
Theorem get_downtime_finished (time_sleep : Z → Result unit)
    (loaded : list (list Operation)) (c : Cluster) (k : nat) (r : Runner) (e : Z) :
  cluster_reachable time_sleep loaded c →
  threads c !! k = Some r →
  end_time (proc r) = Some e →
  Forall (λ op : Operation, op.1.1 ∈ dom (resource_manager c)) (operations (proc r)) →
  ∃ s m,
    start_time (proc r) = Some s
    ∧ Process.get_downtime (resource_manager c) (proc r) = Ok m
    ∧ dom m = dom (resource_manager c)
    ∧ ∀ resource, resource ∈ dom (resource_manager c) →
        m !! resource = Some (e - s - charged resource (operations (proc r))).
Proof.
  intros Hreach Hk He Hall.
  destruct (cluster_ok_reachable _ _ _ Hreach) as [_ Hth].
  destruct (Hth _ _ Hk) as (_ & _ & Htimes).
  assert (is_Some (start_time (proc r))) as [s Hs].
  { unfold times_ok in Htimes. destruct (control r); destruct Htimes; congruence. }
  exists s. destruct (get_downtime_spec _ _ _ _ Hs He Hall) as (m & ? & ? & ?).
  by exists m.
Qed.

Lemma get_downtime_finished_witness :
  let operations := [("inc", "0x100", 10)]%string in
  let tr := [Run 0 1000; Run 0 1000; Work "inc" Pickup; Work "inc" Finish;
             Work "inc" Callback; Run 0 1010; Run 0 1010] in
  let c := default (started []) (cluster_exec py_sleep tr (started [operations])) in
  let r := mkRunner (mkProcess 0 operations (Some 1000) (Some 1010)) Finished in
  ∃ s m,
    start_time (proc r) = Some s
    ∧ Process.get_downtime (resource_manager c) (proc r) = Ok m
    ∧ dom m = dom (resource_manager c)
    ∧ ∀ resource, resource ∈ dom (resource_manager c) →
        m !! resource = Some (1010 - s - charged resource (operations)).
Proof.
  intros operations tr c r.
  apply (get_downtime_finished py_sleep [operations] c 0 r 1010).
  - exists tr. vm_compute. reflexivity.
  - vm_compute. reflexivity.
  - reflexivity.
  - apply (bool_decide_unpack _). vm_compute. exact I.
Defined.

(** C1 as stated fails: process 0 runs [(arm, 0x500, 5); (foo, 0x1, 7)];
    the second entry is read ahead, so the run ends with [end_time] set,
    and [get_downtime] raises [KeyError] on the name "foo". *)
Lemma get_downtime_key_error :
  let operations := [("arm", "0x500", 5); ("foo", "0x1", 7)]%string in
  let tr := [Run 0 1000; Run 0 1000;
             Work "arm" Pickup; Work "arm" Finish; Work "arm" Callback;
             Work "arm" Pickup; Work "arm" Finish; Work "arm" Callback;
             Run 0 1012; Run 0 1012] in
  (c ← cluster_exec py_sleep tr (started [operations]);
   r ← threads c !! 0%nat;
   Some (control r, end_time (proc r),
         Process.get_downtime (resource_manager c) (proc r)))
  = Some (Finished, Some 1012, Raise (KeyError "foo")).
Proof. vm_compute. reflexivity. Qed.

(** ** The read-ahead of [Process.run] *)

Lemma arm_in_registry time_sleep rm :
  registry_ok time_sleep rm →
  ∃ arm, rm !! "arm"%string = Some arm ∧ name arm = "arm"%string.
Proof.
  intros [Hdom Hall].
  assert ("arm"%string ∈ dom rm) as [arm Harm]%elem_of_dom.
  { rewrite Hdom. by apply (bool_decide_unpack _). }
  exists arm. split; [done|]. by destruct (Hall _ _ Harm).
Qed.

(** C9: when the thread of a process is at the head of its loop on an entry
    [(arm, 0x500, d0)] and the next entry is [(nm', op', d)], with any name
    and any opcode, its move calls [request] on the resource "arm" with the
    durations [d0; d], which puts [(pid, "0x500", d0, None)] and
    [(pid, "0x600", d, event)] at the tail of the pipeline of "arm"; no
    other resource changes; and once the event is set the thread is at the
    head of its loop at index [i + 2]: the next entry is never submitted
    under its own name and opcode. *)
Theorem fused_read_ahead (time_sleep : Z → Result unit)
    (loaded : list (list Operation)) (c : Cluster) (k : nat) (r : Runner)
    (i : nat) (d0 d : Z) (nm' op' : string) (now : Z) :
  cluster_reachable time_sleep loaded c →
  threads c !! k = Some r →
  control r = LoopHead i →
  operations (proc r) !! i = Some ("arm", "0x500", d0)%string →
  operations (proc r) !! (i + 1)%nat = Some (nm', op', d) →
  ∃ arm,
    resource_manager c !! "arm"%string = Some arm
    ∧ let event := next_event c in
      let pid := process_id (proc r) in
      let call := Resource.request pid "0x500" [d0; d] event arm in
      let blocked := mkRunner (proc r) (Blocked (i + 1) event) in
      cluster_step time_sleep (Run k now) c
      = Some (mkCluster (<["arm"%string := call.1]> (resource_manager c)) (flags c)
                (S event) (<[k := blocked]> (threads c)))
      ∧ pipeline call.1
        = pipeline arm ++ [(pid, "0x500"%string, d0, None);
                           (pid, "0x600"%string, d, Some event)]
      ∧ ∀ now' c', event ∈ flags c' →
          Process.run_step now' blocked c'
          = Some (mkRunner (proc r) (LoopHead (i + 2)), c').
Proof.
  intros Hreach Hk Hctl Hi Hnext.
  destruct (cluster_ok_reachable _ _ _ Hreach) as [Hreg _].
  destruct (arm_in_registry _ _ Hreg) as (arm & Harm & Hname).
  exists arm. split; [done|]. intros event pid call blocked.
  destruct (request_fused_effect arm pid d0 d [] event Hname) as [Hok Hpipe].
  fold call in Hok, Hpipe. split_and!; [|done|].
  - simpl. rewrite Hk. simpl. unfold Process.run_step. rewrite Hctl.
    rewrite bool_decide_eq_true_2 by (by eapply lookup_lt_Some).
    rewrite run_body_unfold, Hi, Harm. simpl. rewrite Hnext. simpl.
    fold event pid call. by rewrite Hok.
  - intros now' c' Hset. unfold Process.run_step, blocked; simpl.
    unfold is_set. rewrite bool_decide_eq_true_2 by done.
    by replace (i + 1 + 1)%nat with (i + 2)%nat by lia.
Qed.

Lemma fused_read_ahead_witness :
  let operations := [("arm", "0x500", 5); ("inc", "0x300", 15)]%string in
  let c := default (started []) (cluster_exec py_sleep [Run 0 1000] (started [operations])) in
  ∃ arm,
    resource_manager c !! "arm"%string = Some arm
    ∧ pipeline (Resource.request 0 "0x500" [5; 15] (next_event c) arm).1
      = pipeline arm ++ [(0%nat, "0x500"%string, 5, None);
                         (0%nat, "0x600"%string, 15, Some (next_event c))].
Proof.
  intros operations c.
  destruct (fused_read_ahead py_sleep [operations] c 0
              (mkRunner (mkProcess 0 operations (Some 1000) None) (LoopHead 0))
              0 5 15 "inc" "0x300" 1000) as (arm & Harm & _ & Hpipe & _).
  - exists [Run 0 1000]. vm_compute. reflexivity.
  - vm_compute. reflexivity.
  - reflexivity.
  - reflexivity.
  - reflexivity.
  - exists arm. split; [exact Harm | exact Hpipe].
Defined.

(** C10, as the code has it: when the thread of a process is at the head of
    its loop on a last entry [(arm, 0x500, d)], its move reads past the end
    of the list; the [IndexError] is caught in [run]; no [request] is made
    (no resource changes), the thread never moves again, [end_time] stays
    unset and [get_downtime] returns the empty dictionary from then on. *)
Theorem trailing_begin_caught (time_sleep : Z → Result unit)
    (loaded : list (list Operation)) (c : Cluster) (k : nat) (r : Runner)
    (i : nat) (d : Z) (now : Z) :
  cluster_reachable time_sleep loaded c →
  threads c !! k = Some r →
  control r = LoopHead i →
  operations (proc r) !! i = Some ("arm", "0x500", d)%string →
  length (operations (proc r)) = S i →
  let caught := mkRunner (proc r) (Caught IndexError) in
  ∃ c1,
    cluster_step time_sleep (Run k now) c = Some c1
    ∧ resource_manager c1 = resource_manager c
    ∧ flags c1 = flags c
    ∧ end_time (proc r) = None
    ∧ ∀ tr c2, cluster_exec time_sleep tr c1 = Some c2 →
        threads c2 !! k = Some caught
        ∧ (∀ now', cluster_step time_sleep (Run k now') c2 = None)
        ∧ Process.get_downtime (resource_manager c2) (proc r) = Ok ∅.
Proof.
  intros Hreach Hk Hctl Hi Hlen caught.
  destruct (cluster_ok_reachable _ _ _ Hreach) as [Hreg Hth].
  destruct (arm_in_registry _ _ Hreg) as (arm & Harm & Hname).
  destruct (Hth _ _ Hk) as (_ & _ & Htimes).
  assert (end_time (proc r) = None) as Hend.
  { unfold times_ok in Htimes. rewrite Hctl in Htimes. by destruct Htimes. }
  eexists. split_and!.
  - simpl. rewrite Hk. simpl. unfold Process.run_step. rewrite Hctl.
    rewrite bool_decide_eq_true_2 by lia.
    rewrite run_body_unfold, Hi, Harm. simpl.
    destruct (operations (proc r) !! (i + 1)%nat) as [nxt|] eqn:Hnxt; [|done].
    apply lookup_lt_Some in Hnxt. lia.
  - done.
  - done.
  - done.
  - intros tr c2 Hex.
    assert (threads c2 !! k = Some caught) as Hk2.
    { eapply caught_stays; [done| |done]. simpl.
      apply list_lookup_insert_eq. by eapply lookup_lt_Some. }
    split_and!; [done| |].
    + intros now'. simpl. by rewrite Hk2.
    + unfold Process.get_downtime. by rewrite Hend.
Qed.

Lemma trailing_begin_caught_witness :
  let operations := [("inc", "0x100", 10); ("arm", "0x500", 5)]%string in
  let tr := [Run 0 1000; Run 0 1000; Work "inc" Pickup; Work "inc" Finish;
             Work "inc" Callback; Run 0 1010] in
  let c := default (started []) (cluster_exec py_sleep tr (started [operations])) in
  ∃ c1,
    cluster_step py_sleep (Run 0 1010) c = Some c1
    ∧ resource_manager c1 = resource_manager c
    ∧ threads c1 !! 0%nat
      = Some (mkRunner (mkProcess 0 operations (Some 1000) None) (Caught IndexError)).
Proof.
  intros operations tr c.
  destruct (trailing_begin_caught py_sleep [operations] c 0
              (mkRunner (mkProcess 0 operations (Some 1000) None) (LoopHead 1))
              1 5 1010) as (c1 & Hstep & Hrm & _ & _ & Hlater).
  - exists tr. vm_compute. reflexivity.
  - vm_compute. reflexivity.
  - reflexivity.
  - reflexivity.
  - reflexivity.
  - exists c1. split_and!; [exact Hstep | exact Hrm |].
    exact (proj1 (Hlater [] c1 eq_refl)).
Defined.

(** C10 as stated fails: the list [(arm, 0x500, 1); (arm, 0x500, 2)] ends
    with an [(arm, 0x500, d)] entry that nothing follows, yet this entry is
    read ahead by the first one: the run ends, [end_time] is set and
    [get_downtime] returns a dictionary with an entry for every resource. *)
Lemma trailing_begin_read_ahead :
  let operations := [("arm", "0x500", 1); ("arm", "0x500", 2)]%string in
  let tr := [Run 0 1000; Run 0 1000;
             Work "arm" Pickup; Work "arm" Finish; Work "arm" Callback;
             Work "arm" Pickup; Work "arm" Finish; Work "arm" Callback;
             Run 0 1003; Run 0 1003] in
  (c ← cluster_exec py_sleep tr (started [operations]);
   r ← threads c !! 0%nat;
   Some (control r, end_time (proc r),
         Process.get_downtime (resource_manager c) (proc r)))
  = Some (Finished, Some 1003,
          Ok (<["arm"%string := 0]> ((λ _, 3) <$> registry))).
Proof. vm_compute. reflexivity. Qed.

(** ** Cluster time *)

Lemma foldl_min_spec (x : Z) (xs : list Z) :
  foldl Z.min x xs ∈ x :: xs ∧ ∀ y, y ∈ x :: xs → foldl Z.min x xs ≤ y.
Proof.
  revert x. induction xs as [|z xs IH]; intros x; simpl.
  - split; [by left|]. intros y ->%list_elem_of_singleton. lia.
  - destruct (IH (Z.min x z)) as [Hin Hle]. split.
    + apply elem_of_cons in Hin as [Heq|Hin].
      * rewrite Heq. destruct (Z.min_spec x z) as [[_ ->]|[_ ->]].
        -- by left.
        -- right. by left.
      * right. by right.
    + intros y Hy. apply elem_of_cons in Hy as [->|Hy].
      * pose proof (Hle (Z.min x z) ltac:(by left)). lia.
      * apply elem_of_cons in Hy as [->|Hy].
        -- pose proof (Hle (Z.min x z) ltac:(by left)). lia.
        -- apply Hle. by right.
Qed.

Lemma foldl_max_spec (x : Z) (xs : list Z) :
  foldl Z.max x xs ∈ x :: xs ∧ ∀ y, y ∈ x :: xs → y ≤ foldl Z.max x xs.
Proof.
  revert x. induction xs as [|z xs IH]; intros x; simpl.
  - split; [by left|]. intros y ->%list_elem_of_singleton. lia.
  - destruct (IH (Z.max x z)) as [Hin Hle]. split.
    + apply elem_of_cons in Hin as [Heq|Hin].
      * rewrite Heq. destruct (Z.max_spec x z) as [[_ ->]|[_ ->]].
        -- right. by left.
        -- by left.
      * right. by right.
    + intros y Hy. apply elem_of_cons in Hy as [->|Hy].
      * pose proof (Hle (Z.max x z) ltac:(by left)). lia.
      * apply elem_of_cons in Hy as [->|Hy].
        -- pose proof (Hle (Z.max x z) ltac:(by left)). lia.
        -- apply Hle. by right.
Qed.

Lemma py_min_spec (xs : list Z) :
  xs ≠ [] → ∃ m, py_min xs = Ok m ∧ m ∈ xs ∧ ∀ y, y ∈ xs → m ≤ y.
Proof.
  destruct xs as [|x xs]; [done|]. intros _. eexists. split; [done|].
  apply foldl_min_spec.
Qed.

Lemma py_max_spec (xs : list Z) :
  xs ≠ [] → ∃ m, py_max xs = Ok m ∧ m ∈ xs ∧ ∀ y, y ∈ xs → y ≤ m.
Proof.
  destruct xs as [|x xs]; [done|]. intros _. eexists. split; [done|].
  apply foldl_max_spec.
Qed.

Lemma omap_nonempty {A B} (f : A → option B) (xs : list A) :
  xs ≠ [] → Forall (λ x, is_Some (f x)) xs → omap f xs ≠ [].
Proof.
  destruct xs as [|x xs]; [done|]. intros _ [[y Hy] _]%Forall_cons.
  simpl. by rewrite Hy.
Qed.

Lemma cluster_time_spec (processes : list Process) :
  processes ≠ [] →
  Forall (λ p, is_Some (start_time p)) processes →
  Forall (λ p, is_Some (end_time p)) processes →
  ∃ s e,
    cluster_time processes = Ok (e - s)
    ∧ (∃ p, p ∈ processes ∧ start_time p = Some s)
    ∧ (∀ p t, p ∈ processes → start_time p = Some t → s ≤ t)
    ∧ (∃ p, p ∈ processes ∧ end_time p = Some e)
    ∧ (∀ p t, p ∈ processes → end_time p = Some t → t ≤ e).
Proof.
  intros Hne Hs He. unfold cluster_time.
  destruct (py_min_spec (omap start_time processes)) as (s & -> & Hsin & Hsle).
  { by apply omap_nonempty. }
  destruct (py_max_spec (omap end_time processes)) as (e & -> & Hein & Hele).
  { by apply omap_nonempty. }
  exists s, e. split_and!; [done| | | |].
  - apply list_elem_of_omap in Hsin as (p & ? & ?). by exists p.
  - intros p t Hp Ht. apply Hsle. apply list_elem_of_omap. by exists p.
  - apply list_elem_of_omap in Hein as (p & ? & ?). by exists p.
  - intros p t Hp Ht. apply Hele. apply list_elem_of_omap. by exists p.
Qed.

(** C6: in a state of the cluster where every process has finished (there
    is at least one), the value printed as the total cluster time is
    [e - s], where [e] is the greatest [end_time] and [s] the least
    [start_time] over all processes. *)
Theorem cluster_time_makespan (time_sleep : Z → Result unit)
    (loaded : list (list Operation)) (c : Cluster) :
  cluster_reachable time_sleep loaded c →
  threads c ≠ [] →
  Forall (λ r, control r = Finished) (threads c) →
  let processes := proc <$> threads c in
  ∃ s e,
    cluster_time processes = Ok (e - s)
    ∧ (∃ p, p ∈ processes ∧ start_time p = Some s)
    ∧ (∀ p t, p ∈ processes → start_time p = Some t → s ≤ t)
    ∧ (∃ p, p ∈ processes ∧ end_time p = Some e)
    ∧ (∀ p t, p ∈ processes → end_time p = Some t → t ≤ e).
Proof.
  intros Hreach Hne Hfin processes.
  destruct (cluster_ok_reachable _ _ _ Hreach) as [_ Hth].
  assert (Forall (λ p, is_Some (start_time p) ∧ is_Some (end_time p)) processes)
    as Hset.
  { apply Forall_fmap, Forall_lookup. intros k r Hk. simpl.
    destruct (Hth _ _ Hk) as (_ & _ & Htimes).
    rewrite Forall_lookup in Hfin. unfold times_ok in Htimes.
    by rewrite (Hfin _ _ Hk) in Htimes. }
  apply cluster_time_spec.
  - unfold processes. by destruct (threads c).
  - eapply Forall_impl; [done|]. by intros p [? _].
  - eapply Forall_impl; [done|]. by intros p [_ ?].
Qed.

Lemma cluster_time_makespan_witness :
  let loaded := [[("inc", "0x100", 10)]; [("out", "0x200", 20)]]%string in
  let tr := [Run 0 1000; Run 1 1001; Run 0 1001; Run 1 1001;
             Work "inc" Pickup; Work "out" Pickup;
             Work "inc" Finish; Work "inc" Callback; Run 0 1011; Run 0 1011;
             Work "out" Finish; Work "out" Callback; Run 1 1022; Run 1 1022] in
  let c := default (started []) (cluster_exec py_sleep tr (started loaded)) in
  ∃ s e, cluster_time (proc <$> threads c) = Ok (e - s)
         ∧ (∃ p, p ∈ proc <$> threads c ∧ start_time p = Some s)
         ∧ (∃ p, p ∈ proc <$> threads c ∧ end_time p = Some e).
Proof.
  intros loaded tr c.
  destruct (cluster_time_makespan py_sleep loaded c) as (s & e & H1 & H2 & _ & H3 & _).
  - exists tr. vm_compute. reflexivity.
  - vm_compute. discriminate.
  - vm_compute. repeat constructor.
  - exists s, e. split_and!; [exact H1 | exact H2 | exact H3].
Defined.

(** ** Reading the operations of a process *)

Section ReadCsvFacts.

Variable int : string → option Z.

Lemma read_rows_ok rows acc ops :
  read_rows int rows acc = Ok ops ↔
  ∃ parsed, ops = acc ++ parsed ∧ Forall2 (parses_to int) rows parsed.
Proof.
  revert acc. induction rows as [|row rest IH]; intros acc; simpl.
  - split.
    + intros [= <-]. exists []. by rewrite app_nil_r.
    + intros (parsed & -> & ->%Forall2_nil_inv_l). by rewrite app_nil_r.
  - split.
    + destruct row as [|m [|o [|du [|]]]]; try done.
      destruct (int du) as [d|] eqn:Hd; [|done].
      intros (parsed & -> & Hall)%IH. exists ((m, o, d) :: parsed).
      split; [by rewrite <- app_assoc|].
      constructor; [|done]. by exists m, o, du, d.
    + intros (parsed & -> & Hall).
      apply Forall2_cons_inv_l in Hall
        as (op & parsed' & (m & o & du & d & -> & Hd & ->) & Hall & ->).
      rewrite Hd. apply IH. exists parsed'. by rewrite <- app_assoc.
Qed.

Lemma read_rows_malformed rows acc :
  Exists (malformed int) rows → read_rows int rows acc = Raise ValueError.
Proof.
  intros Hex. revert acc. induction Hex as [row rest Hbad|row rest _ IH];
    intros acc; simpl.
  - destruct Hbad as [Hlen|(m & o & du & -> & Hd)].
    + by destruct row as [|m [|o [|du [|]]]].
    + by rewrite Hd.
  - destruct row as [|m [|o [|du [|]]]]; try done.
    by destruct (int du).
Qed.

Lemma load_malformed files loaded :
  Exists (λ file, ∃ header rest,
            file = header :: rest ∧ Exists (malformed int) rest) files →
  ∃ e, load int files loaded = Raise e.
Proof.
  intros Hex. revert loaded.
  induction Hex as [file more (header & rest & -> & Hbad)|file more _ IH];
    intros loaded; simpl.
  - rewrite (read_rows_malformed rest [] Hbad). by eexists.
  - destruct (read_process_from_csv int file); [apply IH|by eexists].
Qed.

End ReadCsvFacts.

(** C7: [read_process_from_csv] skips the first row, whatever it holds, and
    returns the other rows, in their order, as triples of the two names and
    the integer read from the third column; when one of the other rows has
    a wrong number of columns or a duration that is no integer, it raises,
    and so does [schedule_processes] while it loads the files, before any
    thread is started. *)
Theorem read_process_from_csv_spec (int : string → option Z)
    (header : list string) (rest : list (list string)) :
  (∀ ops, read_process_from_csv int (header :: rest) = Ok ops
          ↔ Forall2 (parses_to int) rest ops)
  ∧ (Exists (malformed int) rest →
     read_process_from_csv int (header :: rest) = Raise ValueError)
  ∧ (∀ before after,
       Exists (malformed int) rest →
       ∃ e, schedule_setup int (before ++ (header :: rest) :: after) = Raise e).
Proof.
  split_and!.
  - intros ops. simpl. rewrite read_rows_ok. split.
    + by intros (parsed & -> & Hall).
    + intros Hall. by exists ops.
  - intros Hbad. simpl. by apply read_rows_malformed.
  - intros before after Hbad. unfold schedule_setup.
    destruct (load_malformed int (before ++ (header :: rest) :: after) [])
      as [e ->]; [|by eexists].
    apply Exists_app. right. left. by exists header, rest.
Qed.

Lemma read_process_from_csv_spec_witness :
  read_process_from_csv decimal
    [["resource"; "opcode"; "duration"]; ["inc"; "0x100"; "10"];
     ["arm"; "0x500"; "5"]]%string
  = Ok [("inc", "0x100", 10); ("arm", "0x500", 5)]%string
  ∧ read_process_from_csv decimal
      [["resource"; "opcode"; "duration"]; ["inc"; "0x100"; "ten"]]%string
    = Raise ValueError.
Proof.
  split.
  - apply (read_process_from_csv_spec decimal).
    repeat constructor; by eexists _, _, _, _.
  - apply (read_process_from_csv_spec decimal).
    left. right. by eexists _, _, _.
Defined.

(** * Further properties *)

(** ** Calls of [request] with too few durations *)

(** X1: a call of [request] with an empty list of durations raises
    [IndexError] and changes nothing; a call for the fused opcode on "arm"
    with a single duration raises [IndexError] after the entry of the first
    step has been appended alone, and nothing is handed to the pool. *)
Theorem request_short_durations (self : Resource) (process_id : nat)
    (operation : string) (d0 : Z) (event : Event) :
  Resource.request process_id operation [] event self = (self, Raise IndexError)
  ∧ (is_fused (name self) operation = true →
     Resource.request process_id operation [d0] event self
     = (set_queue (queue self ++ [(process_id, "0x500"%string, d0, None)]) self,
        Raise IndexError)).
Proof.
  split.
  - unfold Resource.request, bind, get; simpl.
    by destruct ((name self =? "arm")%string && (operation =? "0x500")%string).
  - intros Hf. unfold Resource.request, bind, get; simpl.
    unfold is_fused in Hf. by rewrite Hf.
Qed.

(** ** After [shutdown] *)

Lemma request_shape_app self process_id operation duration event :
  ∃ more,
    (Resource.request process_id operation duration event self).1
    = set_queue (queue self ++ more) self
    ∨ (Resource.request process_id operation duration event self).1
      = (dispatch_if_idle (set_queue (queue self ++ more) self)).1.
Proof.
  destruct (is_fused (name self) operation) eqn:Hf.
  - apply andb_true_iff in Hf as [Hn%String.eqb_eq Ho%String.eqb_eq].
    subst operation. destruct duration as [|d0 [|d1 ds]].
    + exists []. left. rewrite app_nil_r.
      unfold Resource.request, bind, get; simpl. rewrite Hn. by destruct self.
    + exists [(process_id, "0x500"%string, d0, None)]. left.
      unfold Resource.request, bind, get; simpl. by rewrite Hn.
    + eexists. right. by rewrite request_fused_eq.
  - destruct duration as [|d ds].
    + exists []. left. rewrite app_nil_r.
      unfold Resource.request, bind, get; simpl. unfold is_fused in Hf.
      rewrite Hf. by destruct self.
    + eexists. right. by rewrite request_plain_eq.
Qed.

Lemma dispatch_if_idle_kept self :
  active self = true ∨ _stopping self = true →
  (dispatch_if_idle self).1 = self.
Proof.
  destruct self as [nm act q stop ex]; simpl.
  unfold dispatch_if_idle, bind, get; simpl. intros [-> | ->]; [done|].
  destruct act; [done|].
  unfold Resource.__process_next, bind, get; simpl. by destruct q.
Qed.

Section Halted.

Variable time_sleep : Z → Result unit.

(** A move of a resource that has been shut down, or that is stranded,
    hands nothing to the pool and leaves the resource as it was in this
    respect. *)
Lemma halted_moves self self' :
  _stopping self = true ∨ stranded self →
  moves time_sleep self self' →
  (_stopping self = true → _stopping self' = true)
  ∧ (stranded self → stranded self')
  ∧ dispatched self' = dispatched self
  ∧ ∃ more, queue self' = queue self ++ more.
Proof.
  intros Hhalt (l & fl & fl' & Hstep).
  destruct l as [pid op dur ev| | | |]; simpl in Hstep.
  - injection Hstep as <- <-.
    destruct (request_shape_app self pid op dur ev) as [more [-> | ->]].
    + split_and!; [done..|by exists more].
    + rewrite dispatch_if_idle_kept.
      * split_and!; [done..|by exists more].
      * destruct Hhalt as [?|[? _]]; [by right|by left].
  - destruct (pickup self) as [s1|] eqn:Hp; simplify_eq/=.
    destruct self as [nm act q stop [wq w dl]].
    unfold pickup in Hp; simpl in Hp.
    destruct w; try done. destruct wq as [|item rest]; [done|].
    injection Hp as <-. split_and!; [done| |done|by exists []; rewrite app_nil_r].
    by intros (_ & _ & ?).
  - destruct self as [nm act q stop [wq w dl]].
    unfold finish in Hstep; simpl in Hstep.
    destruct w as [|[[[pid1 op1] d1] ev1]|]; try done.
    destruct (__execute _ _ _ _ _ _) as [fl1 r]. injection Hstep as <- <-.
    split_and!; [done| | |by exists []; rewrite app_nil_r].
    + by intros (_ & ? & _).
    + unfold dispatched, in_flight, executing; simpl. by rewrite <- app_assoc.
  - destruct (callback self) as [[s1 r]|] eqn:Hc; simplify_eq/=.
    destruct self as [nm act q stop [wq w dl]].
    unfold callback in Hc; simpl in Hc.
    destruct w as [| |item exc]; try done.
    destruct Hhalt as [Hstop|(_ & ? & _)]; [|done]. simpl in Hstop. subst stop.
    destruct exc as [e|]; simpl in Hc.
    + injection Hc as <- <-.
      split_and!; [done|by intros (_ & ? & _)|done|by exists []; rewrite app_nil_r].
    + unfold bind, get in Hc; simpl in Hc. destruct q as [|head rest].
      * injection Hc as <- <-.
        split_and!; [done|by intros (_ & ? & _)|done|by exists []].
      * unfold Resource.__process_next, bind, get in Hc; simpl in Hc.
        injection Hc as <- <-.
        split_and!; [done|by intros (_ & ? & _)|done|by exists []; rewrite app_nil_r].
  - injection Hstep as <- <-.
    split_and!; [done..|by exists []; rewrite app_nil_r].
Qed.

Lemma halted_steps self self' :
  _stopping self = true ∨ stranded self →
  rtc (moves time_sleep) self self' →
  (_stopping self = true → _stopping self' = true)
  ∧ (stranded self → stranded self')
  ∧ dispatched self' = dispatched self
  ∧ ∃ more, queue self' = queue self ++ more.
Proof.
  intros Hhalt Hsteps. induction Hsteps as [self|self mid self' Hm _ IH].
  - split_and!; [done..|by exists []; rewrite app_nil_r].
  - destruct (halted_moves _ _ Hhalt Hm) as (Hs & Hst & Hd & more1 & Hq).
    destruct IH as (Hs' & Hst' & Hd' & more2 & Hq').
    { destruct Hhalt; [left|right]; auto. }
    split_and!; [auto|auto|congruence|].
    exists (more1 ++ more2). by rewrite Hq', Hq, app_assoc.
Qed.

End Halted.

(** X2: once [shutdown] has set [_stopping], the flag stays set, no entry
    is handed to the pool any more, whatever moves follow, and the queue
    only grows: the entries queued at that time and later are never
    executed. *)
Theorem shutdown_abandons_queue (time_sleep : Z → Result unit)
    (self self' : Resource) :
  rtc (moves time_sleep) (Resource.shutdown self).1 self' →
  _stopping self' = true
  ∧ dispatched self' = dispatched self
  ∧ ∃ more, queue self' = queue self ++ more.
Proof.
  intros Hsteps.
  assert (_stopping (Resource.shutdown self).1 = true
          ∨ stranded (Resource.shutdown self).1) as Hhalt by (by left).
  destruct (halted_steps time_sleep _ _ Hhalt Hsteps) as (Hs & _ & Hd & Hq).
  split_and!; [by apply Hs|done|done].
Qed.

Lemma shutdown_abandons_queue_witness :
  let item := (0%nat, "0x100"%string, 10, Some 0%nat) in
  let waiting := (1%nat, "0x200"%string, 20, Some 1%nat) in
  let self := mkResource "inc" true [waiting] false
                (mkExecutor [] (Executing item) []) in
  let self' := mkResource "inc" true [waiting] true (mkExecutor [] Idle [item]) in
  _stopping self' = true
  ∧ dispatched self' = dispatched self
  ∧ ∃ more, queue self' = queue self ++ more.
Proof.
  intros item waiting self self'.
  apply (shutdown_abandons_queue py_sleep self self').
  apply (exec_rtc py_sleep [Finish; Callback] _ ∅ _ ({[0%nat]} ∪ ∅)).
  reflexivity.
Defined.

(** ** After a failed execution *)

(** X3: when the execution of an entry has failed, the done callback raises
    before it touches the resource; from then on the resource stays active
    with nothing at its pool: no move of the pool is possible, no entry is
    handed over any more, and the queue only grows. *)
Theorem failure_strands_resource (time_sleep : Z → Result unit) (nm : string)
    (self : Resource) (item : PendingRequest) (e : Exn) :
  reachable time_sleep nm self →
  worker (executor self) = Completing item (Some e) →
  ∃ self1,
    callback self = Some (self1, Raise (Exception e))
    ∧ ∀ self', rtc (moves time_sleep) self1 self' →
        active self' = true
        ∧ in_flight self' = []
        ∧ dispatched self' = dispatched self
        ∧ (∃ more, queue self' = queue self ++ more)
        ∧ pickup self' = None
        ∧ (∀ fl, finish time_sleep (self', fl) = None)
        ∧ callback self' = None.
Proof.
  intros Hr Hw. pose proof (one_at_a_time_reachable _ _ _ Hr) as [Hwq Hact].
  rewrite Hw in Hwq.
  assert (active self = true) as Hactive.
  { destruct (active self); [done|]. destruct (Hact eq_refl). congruence. }
  exists (set_worker Idle self). split.
  { unfold callback. by rewrite Hw. }
  assert (stranded (set_worker Idle self)) as Hst by done.
  intros self' Hsteps.
  destruct (halted_steps time_sleep _ _ (or_intror Hst) Hsteps)
    as (_ & Hst' & Hd & Hq).
  destruct (Hst' Hst) as (Ha' & Hw' & Hwq').
  assert (dispatched (set_worker Idle self) = dispatched self) as Hd0.
  { unfold dispatched, in_flight, executing; simpl. by rewrite Hw. }
  split_and!; [done| |congruence|done| | |].
  - unfold in_flight, executing. by rewrite Hw', Hwq'.
  - unfold pickup. by rewrite Hw', Hwq'.
  - intros fl. unfold finish. by rewrite Hw'.
  - unfold callback. by rewrite Hw'.
Qed.

Lemma failure_strands_resource_witness :
  let item := (0%nat, "0x100"%string, -5, Some 0%nat) in
  let waiting := (1%nat, "0x200"%string, 20, Some 1%nat) in
  let self := mkResource "inc" true [waiting] false
                (mkExecutor [] (Completing item (Some ValueError)) [item]) in
  ∃ self1,
    callback self = Some (self1, Raise (Exception ValueError))
    ∧ active self1 = true ∧ in_flight self1 = [] ∧ queue self1 = [waiting].
Proof.
  intros item waiting self.
  destruct (failure_strands_resource py_sleep "inc" self item ValueError)
    as (self1 & Hc & Hlater).
  - apply (exec_rtc py_sleep
             [Request 0 "0x100" [-5] 0%nat; Request 1 "0x200" [20] 1%nat;
              Pickup; Finish] _ ∅ _ ({[0%nat]} ∪ ∅)).
    reflexivity.
  - reflexivity.
  - exists self1. destruct (Hlater self1 (rtc_refl _ _)) as (Ha & Hi & _).
    split_and!; [exact Hc | exact Ha | exact Hi |].
    unfold callback in Hc. simpl in Hc. by injection Hc as <-.
Defined.

(** ** Moves of a resource, seen from its entries *)

Lemma pending_dispatch_if_idle self :
  pending (dispatch_if_idle self).1 = pending self
  ∧ done_log (executor (dispatch_if_idle self).1) = done_log (executor self).
Proof.
  destruct self as [nm act q stop [wq w dl]].
  unfold dispatch_if_idle, bind, get; simpl. destruct act; [done|].
  unfold Resource.__process_next, bind, get; simpl.
  destruct q as [|item rest]; [done|]. destruct stop; [done|]. simpl.
  split; [|done]. unfold pending, in_flight, executing; simpl.
  by rewrite <- !app_assoc.
Qed.

Lemma pending_request self process_id operation duration event :
  (∃ more, pending (Resource.request process_id operation duration event self).1
           = pending self ++ more)
  ∧ done_log (executor (Resource.request process_id operation duration event self).1)
    = done_log (executor self).
Proof.
  destruct (request_shape_app self process_id operation duration event)
    as [more [-> | ->]].
  - split; [|done]. exists more. unfold pending; simpl. by rewrite app_assoc.
  - destruct (pending_dispatch_if_idle
                (set_queue (queue self ++ more) self)) as [-> ->].
    split; [|done]. exists more. unfold pending; simpl. by rewrite app_assoc.
Qed.

(** A move either keeps the executed entries and the flags and adds
    entries behind the pending ones, or it ends the execution of the first
    pending entry and sets its event. *)
Lemma step_pending time_sleep l self fl self' fl' :
  step time_sleep l (self, fl) = Some (self', fl') →
  (done_log (executor self') = done_log (executor self)
   ∧ fl' = fl
   ∧ ∃ more, pending self' = pending self ++ more)
  ∨ (∃ item,
       l = Finish
       ∧ worker (executor self) = Executing item
       ∧ pending self = item :: pending self'
       ∧ done_log (executor self') = done_log (executor self) ++ [item]
       ∧ fl' = match item.2 with Some ev => {[ev]} ∪ fl | None => fl end).
Proof.
  intros Hstep. destruct l as [pid op dur ev| | | |]; simpl in Hstep.
  - injection Hstep as <- <-. left.
    destruct (pending_request self pid op dur ev) as [Hp Hd]. by split_and!.
  - left. destruct (pickup self) as [s1|] eqn:Hp; simplify_eq/=.
    destruct self as [nm act q stop [wq w dl]].
    unfold pickup in Hp; simpl in Hp.
    destruct w; try done. destruct wq as [|item rest]; [done|].
    injection Hp as <-. split_and!; [done..|]. exists []. by rewrite app_nil_r.
  - right. destruct self as [nm act q stop [wq w dl]].
    unfold finish in Hstep; simpl in Hstep.
    destruct w as [|[[[pid1 op1] d1] ev1]|]; try done.
    rewrite execute_flags in Hstep. injection Hstep as <- <-.
    by exists (pid1, op1, d1, ev1).
  - left. destruct (callback self) as [[s1 r]|] eqn:Hc; simplify_eq/=.
    destruct self as [nm act q stop [wq w dl]].
    unfold callback in Hc; simpl in Hc.
    destruct w as [| |item exc]; try done.
    destruct exc as [e|]; simpl in Hc.
    + injection Hc as <- <-. split_and!; [done..|]. exists []. by rewrite app_nil_r.
    + unfold bind, get in Hc; simpl in Hc. destruct q as [|head rest].
      * injection Hc as <- <-. split_and!; [done..|].
        exists []. by rewrite app_nil_r.
      * unfold Resource.__process_next, bind, get in Hc; simpl in Hc.
        destruct stop; injection Hc as <- <-; (split_and!; [done..|]);
          exists []; rewrite app_nil_r; [done|].
        unfold pending, in_flight, executing; simpl. by rewrite <- !app_assoc.
  - injection Hstep as <- <-. left. split_and!; [done..|].
    exists []. by rewrite app_nil_r.
Qed.

(** ** Moves of a thread of [Process.run], case by case *)

Section RunCases.

Variable time_sleep : Z → Result unit.

(** A move of a thread either makes no request, and then the thread does
    not wait, or it is the move from the head of the loop that appends
    entries to one resource, the last one with a new event, on which the
    thread waits. *)
Lemma run_step_cases now r c r' c' :
  registry_ok time_sleep (resource_manager c) →
  Process.run_step now r c = Some (r', c') →
  flags c' = flags c
  ∧ threads c' = threads c
  ∧ ((resource_manager c' = resource_manager c
      ∧ (next_event c ≤ next_event c')%nat
      ∧ ∀ i ev, control r' ≠ Blocked i ev)
     ∨ ∃ i i' rt res entries op d,
         control r = LoopHead i
         ∧ r' = mkRunner (proc r) (Blocked i' (next_event c))
         ∧ resource_manager c !! rt = Some res
         ∧ resource_manager c'
           = <[rt := (dispatch_if_idle
                        (set_queue
                           (queue res ++ entries ++
                            [(process_id (proc r), op, d, Some (next_event c))])
                           res)).1]> (resource_manager c)
         ∧ next_event c' = S (next_event c)).
Proof.
  intros [_ Hall]. unfold Process.run_step.
  destruct (control r) as [|i|i ev| |e] eqn:Hctl; try done.
  - intros [= <- <-]. split_and!; [done..|]. left. by split_and!.
  - case_bool_decide as Hlt.
    2:{ intros [= <- <-]. split_and!; [done..|]. left. by split_and!. }
    rewrite run_body_unfold.
    destruct (operations (proc r) !! i) as [[[rt op] d]|];
      [|intros [= <- <-]; split_and!; [done..|]; left; by split_and!].
    destruct (resource_manager c !! rt) as [res|] eqn:Hres;
      [|intros [= <- <-]; split_and!; [done..|]; left; by split_and!].
    destruct (Hall _ _ Hres) as [Hname _]. simpl.
    destruct (is_fused rt op) eqn:Hf.
    + destruct (operations (proc r) !! (i + 1)%nat) as [nxt|].
      2:{ intros [= <- <-]. split_and!; [done..|]. left. simpl.
          split_and!; [done|lia|done]. }
      apply andb_true_iff in Hf as [->%String.eqb_eq ->%String.eqb_eq].
      destruct (request_fused_effect res (process_id (proc r)) d nxt.2 []
                  (next_event c) Hname) as [Hok _].
      simpl. rewrite Hok. intros [= <- <-]. split_and!; [done..|]. right.
      exists i, (i + 1)%nat, "arm"%string, res,
        [(process_id (proc r), "0x500"%string, d, None)], "0x600"%string, nxt.2.
      split_and!; [done..| |done].
      simpl. by rewrite request_fused_eq.
    + rewrite <- Hname in Hf. simpl.
      rewrite (request_plain_eq res (process_id (proc r)) op d [] (next_event c) Hf).
      rewrite dispatch_if_idle_ok. intros [= <- <-]. split_and!; [done..|]. right.
      exists i, i, rt, res, [], op, d. by split_and!.
  - destruct (is_set (flags c) ev); [|done]. intros [= <- <-].
    split_and!; [done..|]. left. by split_and!.
Qed.

(** Every move of the cluster goes from a state with the properties of
    [cluster_ok] to such a state; the states of a run are closed under the
    moves. *)
Lemma cluster_reachable_exec loaded tr c c' :
  cluster_reachable time_sleep loaded c →
  cluster_exec time_sleep tr c = Some c' →
  cluster_reachable time_sleep loaded c'.
Proof.
  intros [tr0 H0] Hex. exists (tr0 ++ tr).
  revert H0. generalize (started loaded). induction tr0 as [|l tr0 IH]; intros c0 H0.
  - by injection H0 as <-.
  - change (cluster_step time_sleep l c0 ≫= cluster_exec time_sleep tr0 = Some c) in H0.
    change (cluster_step time_sleep l c0 ≫= cluster_exec time_sleep (tr0 ++ tr)
            = Some c').
    destruct (cluster_step time_sleep l c0) as [c1|]; [|done]. simpl in *.
    by apply IH.
Qed.

Lemma cluster_reachable_step loaded l c c' :
  cluster_reachable time_sleep loaded c →
  cluster_step time_sleep l c = Some c' →
  cluster_reachable time_sleep loaded c'.
Proof.
  intros Hr Hstep. apply (cluster_reachable_exec loaded [l] c c' Hr).
  simpl. by rewrite Hstep.
Qed.

(** An induction principle over the states of a run. *)
Lemma cluster_reachable_ind (P : Cluster → Prop) loaded :
  P (started loaded) →
  (∀ l c c', cluster_reachable time_sleep loaded c → P c →
             cluster_step time_sleep l c = Some c' → P c') →
  ∀ c, cluster_reachable time_sleep loaded c → P c.
Proof.
  intros Hinit Hstep c [tr Hex].
  assert (cluster_reachable time_sleep loaded (started loaded)) as Hr0
    by (by exists []).
  revert Hex Hinit Hr0. generalize (started loaded).
  induction tr as [|l tr IH]; intros c0 Hex H0 Hr0.
  - by injection Hex as <-.
  - change (cluster_step time_sleep l c0 ≫= cluster_exec time_sleep tr = Some c) in Hex.
    destruct (cluster_step time_sleep l c0) as [c1|] eqn:Hst; [|done].
    simpl in Hex. apply (IH c1 Hex).
    + by eapply Hstep.
    + by eapply cluster_reachable_step.
Qed.

End RunCases.

(** ** Events in a run *)

Section Events.

Variable time_sleep : Z → Result unit.

Lemma cluster_step_run k now c c' :
  cluster_step time_sleep (Run k now) c = Some c' →
  ∃ r r' c1,
    threads c !! k = Some r
    ∧ Process.run_step now r c = Some (r', c1)
    ∧ c' = set_threads (<[k := r']> (threads c1)) c1.
Proof.
  simpl. destruct (threads c !! k) as [r|]; [|done]. simpl.
  destruct (Process.run_step now r c) as [[r' c1]|] eqn:Hrs; [|done]. simpl.
  intros [= <-]. by exists r, r', c1.
Qed.

Lemma submitted_resource res entries :
  let new := (dispatch_if_idle (set_queue (queue res ++ entries) res)).1 in
  pending new = pending res ++ entries
  ∧ done_log (executor new) = done_log (executor res).
Proof.
  intros new. unfold new.
  destruct (pending_dispatch_if_idle (set_queue (queue res ++ entries) res))
    as [-> ->].
  split; [|done]. unfold pending; simpl. by rewrite app_assoc.
Qed.

Lemma executed_kept loaded c :
  cluster_reachable time_sleep loaded c →
  ∀ ev, ev ∈ flags c →
    ∃ key self pid op d,
      resource_manager c !! key = Some self
      ∧ (pid, op, d, Some ev) ∈ done_log (executor self).
Proof.
  apply (cluster_reachable_ind time_sleep
           (λ c, ∀ ev, ev ∈ flags c →
              ∃ key self pid op d,
                resource_manager c !! key = Some self
                ∧ (pid, op, d, Some ev) ∈ done_log (executor self))).
  - intros ev Hev. simpl in Hev. by apply not_elem_of_empty in Hev.
  - intros l c0 c' Hr IH Hstep ev Hev.
    destruct (cluster_ok_reachable _ _ _ Hr) as [Hreg _].
    destruct l as [k now|key l].
    + destruct (cluster_step_run _ _ _ _ Hstep) as (r & r' & c1 & Hk & Hrs & ->).
      destruct (run_step_cases _ _ _ _ _ _ Hreg Hrs)
        as (Hfl & _ & [(Hrm & _)|(i & i' & rt & res & es & op & d & _ & _ & Hres & Hrm & _)]);
        simpl in *; rewrite Hfl in Hev;
        destruct (IH ev Hev) as (key & self & pid & op0 & d0 & Hkey & Hin).
      * exists key, self, pid, op0, d0. by rewrite Hrm.
      * rewrite Hrm. destruct (decide (rt = key)) as [->|Hne].
        -- eexists key, _, pid, op0, d0. rewrite lookup_insert_eq. split; [done|].
           destruct (submitted_resource res
                       (es ++ [(process_id (proc r), op, d, Some (next_event c0))]))
             as [_ ->].
           by rewrite Hkey in Hres; injection Hres as <-.
        -- exists key, self, pid, op0, d0. by rewrite lookup_insert_ne.
    + destruct (cluster_step_work _ _ _ _ _ Hstep)
        as (self & self' & fl' & Hres & Hst & ->). simpl in *.
      assert (∀ ev0, ev0 ∈ flags c0 →
                ∃ key0 self0 pid op d,
                  <[key := self']> (resource_manager c0) !! key0 = Some self0
                  ∧ (pid, op, d, Some ev0) ∈ done_log (executor self0)) as Hold.
      { intros ev0 Hev0.
        destruct (IH ev0 Hev0) as (key0 & self0 & pid & op & d & Hkey0 & Hin).
        destruct (decide (key = key0)) as [->|Hne].
        - eexists key0, self', pid, op, d. rewrite lookup_insert_eq. split; [done|].
          rewrite Hkey0 in Hres. injection Hres as <-.
          destruct (step_pending _ _ _ _ _ _ Hst)
            as [(-> & _)|(item & _ & _ & _ & -> & _)]; [done|].
          apply elem_of_app. by left.
        - exists key0, self0, pid, op, d. by rewrite lookup_insert_ne. }
      destruct (step_pending _ _ _ _ _ _ Hst)
        as [(_ & -> & _)|(item & _ & _ & _ & Hd & ->)]; [by apply Hold|].
      destruct item as [[[pid op] d] [ev1|]]; simpl in Hev; [|by apply Hold].
      apply elem_of_union in Hev as [->%elem_of_singleton|Hev]; [|by apply Hold].
      exists key, self', pid, op, d. rewrite lookup_insert_eq. split; [done|].
      rewrite Hd. apply elem_of_app. right. by apply list_elem_of_singleton.
Qed.

Lemma blocked_fresh loaded c :
  cluster_reachable time_sleep loaded c →
  (∀ k r i ev, threads c !! k = Some r → control r = Blocked i ev →
     (ev < next_event c)%nat)
  ∧ (∀ k k' r r' i i' ev,
       threads c !! k = Some r → threads c !! k' = Some r' →
       control r = Blocked i ev → control r' = Blocked i' ev → k = k').
Proof.
  apply (cluster_reachable_ind time_sleep
           (λ c,
              (∀ k r i ev, threads c !! k = Some r → control r = Blocked i ev →
                 (ev < next_event c)%nat)
              ∧ (∀ k k' r r' i i' ev,
                   threads c !! k = Some r → threads c !! k' = Some r' →
                   control r = Blocked i ev → control r' = Blocked i' ev →
                   k = k'))).
  - split.
    + intros k r i ev. unfold started; simpl. rewrite list_lookup_imap.
      destruct (loaded !! k); [|done]. by intros [= <-].
    + intros k k' r r' i i' ev. unfold started; simpl. rewrite list_lookup_imap.
      destruct (loaded !! k); [|done]. by intros [= <-].
  - intros l c0 c' Hr [IHlt IHinj] Hstep.
    destruct (cluster_ok_reachable _ _ _ Hr) as [Hreg _].
    destruct l as [k0 now|key l].
    2:{ destruct (cluster_step_work _ _ _ _ _ Hstep) as (? & ? & ? & _ & _ & ->).
        by split. }
    destruct (cluster_step_run _ _ _ _ Hstep) as (r0 & r1 & c1 & Hk0 & Hrs & ->).
    destruct (run_step_cases _ _ _ _ _ _ Hreg Hrs) as (_ & Hth & Hcases).
    simpl. rewrite Hth.
    assert (k0 < length (threads c0))%nat as Hlen by (by eapply lookup_lt_Some).
    assert ((next_event c0 ≤ next_event c1)%nat
            ∧ ∀ i ev, control r1 = Blocked i ev → ev = next_event c0
                      ∧ (ev < next_event c1)%nat) as [Hle Hnew].
    { destruct Hcases as [(_ & Hle & Hnb)|(i0 & i1 & rt & res & es & op & d
                                            & _ & -> & _ & _ & ->)].
      - split; [done|]. intros i ev Hb. by destruct (Hnb i ev).
      - split; [lia|]. simpl. intros i ev [= _ <-]. split; [done|lia]. }
    split.
    + intros k r i ev Hk Hb. destruct (decide (k0 = k)) as [<-|Hne].
      * rewrite list_lookup_insert_eq in Hk by done. injection Hk as <-.
        by destruct (Hnew _ _ Hb).
      * rewrite list_lookup_insert_ne in Hk by done.
        pose proof (IHlt _ _ _ _ Hk Hb). lia.
    + intros k k' r r' i i' ev Hk Hk' Hb Hb'.
      destruct (decide (k0 = k)) as [<-|Hne], (decide (k0 = k')) as [<-|Hne'];
        [done| | |].
      * rewrite list_lookup_insert_eq in Hk by done. injection Hk as <-.
        rewrite list_lookup_insert_ne in Hk' by done.
        destruct (Hnew _ _ Hb) as [-> _]. pose proof (IHlt _ _ _ _ Hk' Hb'). lia.
      * rewrite list_lookup_insert_eq in Hk' by done. injection Hk' as <-.
        rewrite list_lookup_insert_ne in Hk by done.
        destruct (Hnew _ _ Hb') as [-> _]. pose proof (IHlt _ _ _ _ Hk Hb). lia.
      * rewrite list_lookup_insert_ne in Hk, Hk' by done. by eapply IHinj.
Qed.

End Events.

(** X4: in every state of a run, an event is set only if an entry that
    carries it has been executed to its end by one of the resources. *)
Theorem event_set_after_execution (time_sleep : Z → Result unit)
    (loaded : list (list Operation)) (c : Cluster) (event : Event) :
  cluster_reachable time_sleep loaded c →
  event ∈ flags c →
  ∃ key self pid op d,
    resource_manager c !! key = Some self
    ∧ (pid, op, d, Some event) ∈ done_log (executor self).
Proof. intros Hr. by apply (executed_kept time_sleep loaded). Qed.

Lemma event_set_after_execution_witness :
  let operations := [("inc", "0x100", 10)]%string in
  let tr := [Run 0 1000; Run 0 1000; Work "inc" Pickup; Work "inc" Finish] in
  let c := default (started []) (cluster_exec py_sleep tr (started [operations])) in
  ∃ key self pid op d,
    resource_manager c !! key = Some self
    ∧ (pid, op, d, Some 0%nat) ∈ done_log (executor self).
Proof.
  intros operations tr c.
  apply (event_set_after_execution py_sleep [operations] c 0%nat).
  - exists tr. vm_compute. reflexivity.
  - apply (bool_decide_unpack _). vm_compute. exact I.
Defined.

(** X5: every [threading.Event()] of a run is a new one: the event a
    thread waits on was made before the next one to be made, and no two
    threads wait on the same event. *)
Theorem waited_events_distinct (time_sleep : Z → Result unit)
    (loaded : list (list Operation)) (c : Cluster) (k k' : nat) (r r' : Runner)
    (i i' : nat) (event : Event) :
  cluster_reachable time_sleep loaded c →
  threads c !! k = Some r → control r = Blocked i event →
  threads c !! k' = Some r' → control r' = Blocked i' event →
  k = k' ∧ (event < next_event c)%nat.
Proof.
  intros Hr Hk Hb Hk' Hb'.
  destruct (blocked_fresh time_sleep loaded c Hr) as [Hlt Hinj].
  split; [by eapply Hinj|by eapply Hlt].
Qed.

Lemma waited_events_distinct_witness :
  let loaded := [[("inc", "0x100", 10)]; [("inc", "0x200", 20)]]%string in
  let tr := [Run 0 1000; Run 1 1000; Run 0 1000; Run 1 1000] in
  let c := default (started []) (cluster_exec py_sleep tr (started loaded)) in
  (0 = 0)%nat ∧ (0 < next_event c)%nat.
Proof.
  intros loaded tr c.
  apply (waited_events_distinct py_sleep loaded c 0 0
           (mkRunner (mkProcess 0 [("inc", "0x100", 10)]%string (Some 1000) None)
              (Blocked 0 0%nat))
           (mkRunner (mkProcess 0 [("inc", "0x100", 10)]%string (Some 1000) None)
              (Blocked 0 0%nat)) 0 0 0%nat).
  - exists tr. vm_compute. reflexivity.
  - vm_compute. reflexivity.
  - reflexivity.
  - vm_compute. reflexivity.
  - reflexivity.
Defined.

(** ** A waiting thread and its entry *)

Section Awaited.

Variable time_sleep : Z → Result unit.

Lemma awaited_kept loaded c :
  cluster_reachable time_sleep loaded c →
  ∀ k r i ev, threads c !! k = Some r → control r = Blocked i ev →
    awaited c (process_id (proc r)) ev.
Proof.
  apply (cluster_reachable_ind time_sleep
           (λ c, ∀ k r i ev, threads c !! k = Some r → control r = Blocked i ev →
                   awaited c (process_id (proc r)) ev)).
  - intros k r i ev. unfold started; simpl. rewrite list_lookup_imap.
    destruct (loaded !! k); [|done]. by intros [= <-].
  - intros l c0 c' Hr IH Hstep.
    destruct (cluster_ok_reachable _ _ _ Hr) as [Hreg _].
    destruct l as [k0 now|key l].
    + destruct (cluster_step_run _ _ _ _ _ Hstep) as (r0 & r1 & c1 & Hk0 & Hrs & ->).
      destruct (run_step_cases _ _ _ _ _ _ Hreg Hrs) as (Hfl & Hth & Hcases).
      assert (k0 < length (threads c0))%nat as Hlen by (by eapply lookup_lt_Some).
      (* what was awaited in [c0] is awaited in [c1] *)
      assert (∀ pid ev, awaited c0 pid ev → awaited c1 pid ev) as Hmono.
      { intros pid ev [Hset|(key & self & op & d & Hkey & Hin)].
        { left. by rewrite Hfl. }
        right.
        destruct Hcases as [(Hrm & _)|(i0 & i1 & rt & res & es & op1 & d1
                                       & _ & _ & Hres & Hrm & _)].
        - exists key, self, op, d. by rewrite Hrm.
        - rewrite Hrm. destruct (decide (rt = key)) as [->|Hne].
          + eexists key, _, op, d. rewrite lookup_insert_eq. split; [done|].
            destruct (submitted_resource res
                        (es ++ [(process_id (proc r0), op1, d1, Some (next_event c0))]))
              as [-> _].
            rewrite Hkey in Hres. injection Hres as <-.
            apply elem_of_app. by left.
          + exists key, self, op, d. by rewrite lookup_insert_ne. }
      intros k r i ev Hk Hb. simpl in Hk. rewrite Hth in Hk.
      assert (∀ pid ev0, awaited c1 pid ev0 →
                awaited (set_threads (<[k0:=r1]> (threads c1)) c1) pid ev0)
        as Hthreads by done.
      apply Hthreads.
      destruct (decide (k0 = k)) as [<-|Hne].
      * rewrite list_lookup_insert_eq in Hk by done. injection Hk as <-.
        destruct Hcases as [(_ & _ & Hnb)|(i0 & i1 & rt & res & es & op1 & d1
                                          & _ & -> & Hres & Hrm & _)].
        { by destruct (Hnb i ev). }
        simpl in Hb. injection Hb as _ <-. right. simpl.
        eexists rt, _, op1, d1. rewrite Hrm, lookup_insert_eq. split; [done|].
        destruct (submitted_resource res
                    (es ++ [(process_id (proc r0), op1, d1, Some (next_event c0))]))
          as [-> _].
        apply elem_of_app. right. apply elem_of_app. right.
        by apply list_elem_of_singleton.
      * rewrite list_lookup_insert_ne in Hk by done.
        apply Hmono. by eapply IH.
    + destruct (cluster_step_work _ _ _ _ _ Hstep)
        as (self & self' & fl' & Hres & Hst & ->).
      intros k r i ev Hk Hb. simpl in Hk.
      destruct (IH _ _ _ _ Hk Hb) as [Hset|(key0 & self0 & op & d & Hkey0 & Hin)].
      * left. simpl.
        destruct (step_pending _ _ _ _ _ _ Hst)
          as [(_ & -> & _)|(item & _ & _ & _ & _ & ->)]; [done|].
        destruct item.2; [|done]. apply elem_of_union. by right.
      * destruct (decide (key = key0)) as [->|Hne].
        2:{ right. exists key0, self0, op, d. simpl. by rewrite lookup_insert_ne. }
        rewrite Hkey0 in Hres. injection Hres as <-.
        destruct (step_pending _ _ _ _ _ _ Hst)
          as [(_ & _ & more & Hp)|(item & _ & _ & Hp & _ & ->)].
        -- right. exists key0, self', op, d. simpl. rewrite lookup_insert_eq.
           split; [done|]. rewrite Hp. apply elem_of_app. by left.
        -- rewrite Hp in Hin. apply elem_of_cons in Hin as [<-|Hin].
           ++ left. simpl. apply elem_of_union. left. by apply elem_of_singleton.
           ++ right. exists key0, self', op, d. simpl. by rewrite lookup_insert_eq.
Qed.

End Awaited.

(** X6: in every state of a run, a thread inside [event.wait()] waits on an
    event that is set already, or that is carried by an entry of its own
    process which a resource holds and has not yet executed to its end: the
    request it waits for is not lost. *)
Theorem waited_event_pending (time_sleep : Z → Result unit)
    (loaded : list (list Operation)) (c : Cluster) (k : nat) (r : Runner)
    (i : nat) (event : Event) :
  cluster_reachable time_sleep loaded c →
  threads c !! k = Some r →
  control r = Blocked i event →
  event ∈ flags c
  ∨ ∃ key self operation duration,
      resource_manager c !! key = Some self
      ∧ (k, operation, duration, Some event) ∈ pending self.
Proof.
  intros Hr Hk Hb.
  destruct (cluster_ok_reachable _ _ _ Hr) as [_ Hth].
  destruct (Hth _ _ Hk) as (Hpid & _).
  pose proof (awaited_kept time_sleep loaded c Hr k r i event Hk Hb) as Haw.
  by rewrite Hpid in Haw.
Qed.

Lemma waited_event_pending_witness :
  let loaded := [[("inc", "0x100", 10)]; [("inc", "0x200", 20)]]%string in
  let tr := [Run 0 1000; Run 1 1000; Run 0 1000; Run 1 1000] in
  let c := default (started []) (cluster_exec py_sleep tr (started loaded)) in
  1%nat ∈ flags c
  ∨ ∃ key self operation duration,
      resource_manager c !! key = Some self
      ∧ (1%nat, operation, duration, Some 1%nat) ∈ pending self.
Proof.
  intros loaded tr c.
  apply (waited_event_pending py_sleep loaded c 1
           (mkRunner (mkProcess 1 [("inc", "0x200", 20)]%string (Some 1000) None)
              (Blocked 0 1%nat)) 0 1%nat).
  - exists tr. vm_compute. reflexivity.
  - vm_compute. reflexivity.
  - reflexivity.
Defined.

(** ** A resource that is not active *)

Section IdleQueue.

Variable time_sleep : Z → Result unit.

Lemma idle_queue_empty_init nm : idle_queue_empty (Resource.init nm).
Proof. by intros _ _. Qed.

Lemma idle_queue_empty_submitted res entries :
  entries ≠ [] →
  idle_queue_empty (dispatch_if_idle (set_queue (queue res ++ entries) res)).1.
Proof.
  destruct res as [nm act q stop [wq w dl]]. intros Hne.
  unfold idle_queue_empty, dispatch_if_idle, bind, get; simpl. destruct act; [done|].
  unfold Resource.__process_next, bind, get; simpl.
  destruct (q ++ entries) as [|item rest] eqn:Hq.
  { by apply app_eq_nil in Hq as [_ ?]. }
  by destruct stop.
Qed.

Lemma idle_queue_empty_step l self fl self' fl' :
  (∀ pid op dur ev, l ≠ Request pid op dur ev) →
  idle_queue_empty self →
  step time_sleep l (self, fl) = Some (self', fl') →
  idle_queue_empty self'.
Proof.
  intros Hl Hidle Hstep.
  destruct l as [pid op dur ev| | | |]; simpl in Hstep.
  - by destruct (Hl pid op dur ev).
  - destruct (pickup self) as [s1|] eqn:Hp; simplify_eq/=.
    unfold pickup in Hp. destruct (worker (executor self)); try done.
    destruct (work_queue (executor self)); [done|]. by injection Hp as <-.
  - unfold finish in Hstep.
    destruct (worker (executor self)) as [|[[[pid1 op1] d1] ev1]|]; try done.
    destruct (__execute _ _ _ _ _ _) as [fl1 r]. by injection Hstep as <- <-.
  - destruct (callback self) as [[s1 r]|] eqn:Hc; simplify_eq/=.
    destruct self as [nm act q stop [wq w dl]].
    unfold callback in Hc; simpl in *.
    destruct w as [| |item exc]; try done.
    destruct exc as [e|]; simpl in Hc; [by injection Hc as <- <-|].
    unfold bind, get in Hc; simpl in Hc. destruct q as [|head rest].
    + by injection Hc as <- <-.
    + unfold Resource.__process_next, bind, get in Hc; simpl in Hc.
      by destruct stop; injection Hc as <- <-.
  - injection Hstep as <- <-. by intros [=].
Qed.

Lemma idle_queue_empty_kept loaded c :
  cluster_reachable time_sleep loaded c →
  ∀ key self, resource_manager c !! key = Some self → idle_queue_empty self.
Proof.
  apply (cluster_reachable_ind time_sleep
           (λ c, ∀ key self, resource_manager c !! key = Some self →
                             idle_queue_empty self)).
  - intros key self [_ ->]%registry_lookup_some. apply idle_queue_empty_init.
  - intros l c0 c' Hr IH Hstep key self Hkey.
    destruct (cluster_ok_reachable _ _ _ Hr) as [Hreg _].
    destruct l as [k0 now|key0 l].
    + destruct (cluster_step_run _ _ _ _ _ Hstep) as (r0 & r1 & c1 & Hk0 & Hrs & ->).
      destruct (run_step_cases _ _ _ _ _ _ Hreg Hrs)
        as (_ & _ & [(Hrm & _)|(i0 & i1 & rt & res & es & op1 & d1
                                & _ & _ & Hres & Hrm & _)]);
        simpl in Hkey; rewrite Hrm in Hkey; [by eapply IH|].
      destruct (decide (rt = key)) as [->|Hne].
      * rewrite lookup_insert_eq in Hkey. injection Hkey as <-.
        apply idle_queue_empty_submitted.
        intros [_ ?]%app_eq_nil. done.
      * rewrite lookup_insert_ne in Hkey by done. by eapply IH.
    + destruct (cluster_step_work _ _ _ _ _ Hstep)
        as (self0 & self' & fl' & Hres & Hst & ->). simpl in Hkey.
      destruct (decide (key0 = key)) as [->|Hne].
      * rewrite lookup_insert_eq in Hkey. injection Hkey as <-.
        eapply idle_queue_empty_step; [|by eapply IH|done].
        intros pid op dur ev ->. simpl in Hstep. done.
      * rewrite lookup_insert_ne in Hkey by done. by eapply IH.
Qed.

End IdleQueue.

(** X7: in every state of a run, whether executions fail or not, a resource
    that has not been shut down and is not active holds no entry, neither in
    its queue nor at its pool: no request is left behind at a resource that
    is switched off. *)
Theorem idle_resource_holds_nothing (time_sleep : Z → Result unit)
    (loaded : list (list Operation)) (c : Cluster) (key : string)
    (self : Resource) :
  cluster_reachable time_sleep loaded c →
  resource_manager c !! key = Some self →
  _stopping self = false →
  active self = false →
  pending self = [].
Proof.
  intros Hr Hkey Hs Ha.
  pose proof (idle_queue_empty_kept time_sleep loaded c Hr key self Hkey Hs Ha) as Hq.
  destruct (cluster_ok_reachable _ _ _ Hr) as [[_ Hall] _].
  destruct (Hall _ _ Hkey) as [_ Hreach].
  pose proof (one_at_a_time_reachable _ _ _ Hreach) as Hone.
  destruct (in_flight_bound _ Hone) as [_ Hidle].
  unfold pending. by rewrite (Hidle Ha), Hq.
Qed.

Lemma idle_resource_holds_nothing_witness :
  let loaded := [[("inc", "0x100", 10)]; [("inc", "0x200", 20)]]%string in
  let tr := [Run 0 1000; Run 1 1000; Run 0 1000; Run 1 1000;
             Work "inc" Pickup; Work "inc" Finish; Work "inc" Callback;
             Work "inc" Pickup; Work "inc" Finish; Work "inc" Callback] in
  let c := default (started []) (cluster_exec py_sleep tr (started loaded)) in
  let self := mkResource "inc" false [] false
                (mkExecutor [] Idle [(0%nat, "0x100"%string, 10, Some 0%nat);
                                     (1%nat, "0x200"%string, 20, Some 1%nat)]) in
  resource_manager c !! "inc"%string = Some self ∧ pending self = [].
Proof.
  intros loaded tr c self.
  assert (resource_manager c !! "inc"%string = Some self) as Hkey
    by (vm_compute; reflexivity).
  split; [exact Hkey|].
  refine (idle_resource_holds_nothing py_sleep loaded c "inc" self _ Hkey _ _).
  - exists tr. vm_compute. reflexivity.
  - reflexivity.
  - reflexivity.
Defined.

(** ** What a thread of [Process.run] keeps *)

Section ThreadKeeps.

Variable time_sleep : Z → Result unit.

Lemma thread_step loaded l c c' k r :
  cluster_reachable time_sleep loaded c →
  cluster_step time_sleep l c = Some c' →
  threads c !! k = Some r →
  ∃ r', threads c' !! k = Some r'
        ∧ process_id (proc r') = process_id (proc r)
        ∧ operations (proc r') = operations (proc r)
        ∧ (∀ s, start_time (proc r) = Some s → start_time (proc r') = Some s)
        ∧ (joined r → r' = r).
Proof.
  intros Hr Hstep Hk.
  destruct (cluster_ok_reachable _ _ _ Hr) as [Hreg Hth].
  destruct l as [k0 now|key l].
  2:{ destruct (cluster_step_work _ _ _ _ _ Hstep) as (? & ? & ? & _ & _ & ->).
      exists r. by split_and!. }
  destruct (cluster_step_run _ _ _ _ _ Hstep) as (r0 & r1 & c1 & Hk0 & Hrs & ->).
  destruct (run_step_frame _ _ _ _ _ Hrs) as [_ Hthreads].
  simpl. rewrite Hthreads.
  destruct (decide (k0 = k)) as [->|Hne].
  2:{ exists r. rewrite list_lookup_insert_ne by done. by split_and!. }
  rewrite Hk in Hk0. injection Hk0 as <-.
  exists r1. rewrite list_lookup_insert_eq by (by eapply lookup_lt_Some).
  destruct (Hth _ _ Hk) as (_ & _ & Htimes).
  destruct (run_step_effect _ _ _ _ _ _ Hreg Hrs) as (_ & _ & _ & Hpid & Hops & _).
  split_and!; [done..| |].
  - intros s Hs. unfold Process.run_step in Hrs. unfold times_ok in Htimes.
    destruct (control r) as [|i|i ev| |e]; try done.
    + destruct Htimes. congruence.
    + case_bool_decide.
      * by destruct (Process.run_body (proc r) i c) as [c2 [[i' ev]|e]];
          injection Hrs as <- <-.
      * by injection Hrs as <- <-.
    + destruct (is_set (flags c) ev); [|done]. by injection Hrs as <- <-.
  - intros [Hfin|[e He]]; unfold Process.run_step in Hrs.
    + by rewrite Hfin in Hrs.
    + by rewrite He in Hrs.
Qed.

Lemma thread_steps loaded tr c c' k r :
  cluster_reachable time_sleep loaded c →
  cluster_exec time_sleep tr c = Some c' →
  threads c !! k = Some r →
  ∃ r', threads c' !! k = Some r'
        ∧ process_id (proc r') = process_id (proc r)
        ∧ operations (proc r') = operations (proc r)
        ∧ (∀ s, start_time (proc r) = Some s → start_time (proc r') = Some s)
        ∧ (joined r → r' = r).
Proof.
  revert c r. induction tr as [|l tr IH]; intros c r Hr Hex Hk.
  - injection Hex as <-. exists r. by split_and!.
  - change (cluster_step time_sleep l c ≫= cluster_exec time_sleep tr = Some c') in Hex.
    destruct (cluster_step time_sleep l c) as [c1|] eqn:Hstep; [|done].
    simpl in Hex.
    destruct (thread_step _ _ _ _ _ _ Hr Hstep Hk) as (r1 & Hk1 & Hp1 & Ho1 & Hs1 & Hj1).
    destruct (IH c1 r1 (cluster_reachable_step _ _ _ _ _ Hr Hstep) Hex Hk1)
      as (r' & Hk' & Hp' & Ho' & Hs' & Hj').
    exists r'. split_and!; [done|congruence|congruence|auto|].
    intros Hj. rewrite <- (Hj1 Hj). apply Hj'. by rewrite (Hj1 Hj).
Qed.

End ThreadKeeps.

(** X8: along a run, a thread of [Process.run] keeps its process id and its
    list of operations; [start_time], once set, keeps its value; and a
    thread that has set [end_time], or has caught an exception, never
    changes again, so [end_time] is set at most once. *)
Theorem process_fields_set_once (time_sleep : Z → Result unit)
    (loaded : list (list Operation)) (tr : list ClusterLabel) (c c' : Cluster)
    (k : nat) (r : Runner) :
  cluster_reachable time_sleep loaded c →
  cluster_exec time_sleep tr c = Some c' →
  threads c !! k = Some r →
  ∃ r', threads c' !! k = Some r'
        ∧ process_id (proc r') = process_id (proc r)
        ∧ operations (proc r') = operations (proc r)
        ∧ (∀ s, start_time (proc r) = Some s → start_time (proc r') = Some s)
        ∧ (is_Some (end_time (proc r)) → r' = r)
        ∧ (∀ e, control r = Caught e → r' = r).
Proof.
  intros Hr Hex Hk.
  destruct (thread_steps time_sleep _ _ _ _ _ _ Hr Hex Hk)
    as (r' & Hk' & Hp & Ho & Hs & Hj).
  exists r'. split_and!; [done..| |].
  - intros [e He]. apply Hj.
    destruct (cluster_ok_reachable _ _ _ Hr) as [_ Hth].
    destruct (Hth _ _ Hk) as (_ & _ & Htimes). unfold times_ok in Htimes.
    unfold joined.
    destruct (control r); try (destruct Htimes; congruence). by left.
  - intros e He. apply Hj. right. by exists e.
Qed.

Lemma process_fields_set_once_witness :
  let ops := [("inc", "0x100", 10)]%string in
  let c := default (started []) (cluster_exec py_sleep [Run 0 1000] (started [ops])) in
  let c' := default (started [])
              (cluster_exec py_sleep [Run 0 1005; Work "inc" Pickup] c) in
  ∃ r', threads c' !! 0%nat = Some r'
        ∧ operations (proc r') = ops
        ∧ start_time (proc r') = Some 1000.
Proof.
  intros ops c c'.
  destruct (process_fields_set_once py_sleep [ops]
              [Run 0 1005; Work "inc" Pickup] c c' 0
              (mkRunner (mkProcess 0 ops (Some 1000) None) (LoopHead 0)))
    as (r' & Hk & _ & Ho & Hs & _).
  - exists [Run 0 1000]. vm_compute. reflexivity.
  - vm_compute. reflexivity.
  - vm_compute. reflexivity.
  - exists r'. split_and!; [exact Hk | exact Ho | exact (Hs 1000 eq_refl)].
Defined.

(** ** The other moves from the head of the loop *)

(** X9: when the thread of a process is at the head of its loop on an entry
    whose resource name is no key of the registry, its move raises
    [KeyError] on this name, caught in [run]: the cluster does not change
    otherwise (no event is made, no request), the thread never moves again
    and [end_time] stays unset. *)
Theorem unknown_resource_caught (time_sleep : Z → Result unit)
    (loaded : list (list Operation)) (c : Cluster) (k : nat) (r : Runner)
    (i : nat) (rt op : string) (d : Z) (now : Z) :
  cluster_reachable time_sleep loaded c →
  threads c !! k = Some r →
  control r = LoopHead i →
  operations (proc r) !! i = Some (rt, op, d) →
  rt ∉ RESOURCE_TYPES →
  let caught := mkRunner (proc r) (Caught (KeyError rt)) in
  cluster_step time_sleep (Run k now) c
  = Some (set_threads (<[k := caught]> (threads c)) c)
  ∧ end_time (proc r) = None
  ∧ ∀ tr c2,
      cluster_exec time_sleep tr (set_threads (<[k := caught]> (threads c)) c)
      = Some c2 →
      threads c2 !! k = Some caught
      ∧ ∀ now', cluster_step time_sleep (Run k now') c2 = None.
Proof.
  intros Hreach Hk Hctl Hi Hrt caught.
  destruct (cluster_ok_reachable _ _ _ Hreach) as [[Hdom _] Hth].
  destruct (Hth _ _ Hk) as (_ & _ & Htimes).
  assert (resource_manager c !! rt = None) as Hnone.
  { apply not_elem_of_dom. by rewrite Hdom. }
  split_and!.
  - simpl. rewrite Hk. simpl. unfold Process.run_step. rewrite Hctl.
    rewrite bool_decide_eq_true_2 by (by eapply lookup_lt_Some).
    by rewrite run_body_unfold, Hi, Hnone.
  - unfold times_ok in Htimes. rewrite Hctl in Htimes. by destruct Htimes.
  - intros tr c2 Hex.
    assert (threads c2 !! k = Some caught) as Hk2.
    { eapply caught_stays; [done| |done]. simpl.
      apply list_lookup_insert_eq. by eapply lookup_lt_Some. }
    split; [done|]. intros now'. simpl. by rewrite Hk2.
Qed.

Lemma unknown_resource_caught_witness :
  let operations := [("cpu", "0x100", 10)]%string in
  let c := default (started []) (cluster_exec py_sleep [Run 0 1000] (started [operations])) in
  let caught := mkRunner (mkProcess 0 operations (Some 1000) None)
                  (Caught (KeyError "cpu")) in
  cluster_step py_sleep (Run 0 1000) c
  = Some (set_threads (<[0%nat := caught]> (threads c)) c).
Proof.
  intros operations c caught.
  refine (proj1 (unknown_resource_caught py_sleep [operations] c 0
                   (mkRunner (mkProcess 0 operations (Some 1000) None) (LoopHead 0))
                   0 "cpu" "0x100" 10 1000 _ _ _ _ _)).
  - exists [Run 0 1000]. vm_compute. reflexivity.
  - vm_compute. reflexivity.
  - reflexivity.
  - reflexivity.
  - apply (bool_decide_unpack _). vm_compute. exact I.
Defined.

(** X10: the call of [request] that the body of the loop makes on an entry
    [(rt, op, d)] that is not the fused one and whose resource is in the
    registry appends the one entry [(pid, op, d, event)], with a new event,
    to that resource and changes no other resource, no flag and no thread.
    When the resource is active the entry is left at the end of its queue
    and its pool is untouched; when it is neither active nor shut down the
    entry is handed to the pool at once and the resource becomes active. *)
Theorem plain_operation_submitted (time_sleep : Z → Result unit)
    (loaded : list (list Operation)) (c : Cluster) (k : nat) (r : Runner)
    (i : nat) (rt op : string) (d : Z) (self : Resource) :
  cluster_reachable time_sleep loaded c →
  threads c !! k = Some r →
  control r = LoopHead i →
  operations (proc r) !! i = Some (rt, op, d) →
  is_fused rt op = false →
  resource_manager c !! rt = Some self →
  let event := next_event c in
  let entry := (process_id (proc r), op, d, Some event) in
  let after := (Process.run_body (proc r) i c).1 in
  ∃ self',
    resource_manager after = <[rt := self']> (resource_manager c)
    ∧ flags after = flags c
    ∧ threads after = threads c
    ∧ next_event after = S event
    ∧ pipeline self' = pipeline self ++ [entry]
    ∧ (active self = true →
       self' = set_queue (queue self ++ [entry]) self)
    ∧ (active self = false → _stopping self = false →
       self' = mkResource (name self) true [] false
                 (mkExecutor (work_queue (executor self) ++ [entry])
                    (worker (executor self)) (done_log (executor self)))).
Proof.
  intros Hreach Hk Hctl Hi Hf Hself event entry after.
  destruct (cluster_ok_reachable _ _ _ Hreach) as [[_ Hall] _].
  destruct (Hall _ _ Hself) as [Hname _].
  assert (is_fused (name self) op = false) as Hf' by (by rewrite Hname).
  pose proof (request_plain_eq self (process_id (proc r)) op d [] event Hf')
    as Hcall.
  exists (dispatch_if_idle (set_queue (queue self ++ [entry]) self)).1.
  assert (after = set_resource_manager
                    (<[rt := (dispatch_if_idle
                                (set_queue (queue self ++ [entry]) self)).1]>
                       (resource_manager c))
                    (mkCluster (resource_manager c) (flags c) (S event) (threads c)))
    as ->.
  { unfold after. rewrite run_body_unfold, Hi, Hself. simpl. rewrite Hf.
    simpl. fold event. by rewrite Hcall. }
  split_and!; try done.
  - rewrite pipeline_dispatch_if_idle, pipeline_set_queue.
    unfold pipeline. by rewrite <- !app_assoc.
  - intros Ha. unfold dispatch_if_idle, bind, get; simpl. by rewrite Ha.
  - intros Ha Hs.
    pose proof (idle_queue_empty_kept time_sleep loaded c Hreach rt self Hself Hs Ha)
      as Hq.
    destruct self as [nm act q stop [wq w dl]]. simpl in Ha, Hs, Hq. subst act stop q.
    done.
Qed.

Lemma plain_operation_submitted_witness :
  let operations := [("arm", "0x600", 10)]%string in
  let c := default (started []) (cluster_exec py_sleep [Run 0 1000] (started [operations])) in
  let p := mkProcess 0 operations (Some 1000) None in
  ∃ self',
    resource_manager (Process.run_body p 0 c).1
    = <[ "arm"%string := self']> (resource_manager c)
    ∧ pipeline self' = [(0%nat, "0x600"%string, 10, Some 0%nat)].
Proof.
  intros operations c p.
  destruct (plain_operation_submitted py_sleep [operations] c 0
              (mkRunner p (LoopHead 0)) 0 "arm" "0x600" 10 (Resource.init "arm"))
    as (self' & Hrm & _ & _ & _ & Hpipe & _).
  - exists [Run 0 1000]. vm_compute. reflexivity.
  - vm_compute. reflexivity.
  - reflexivity.
  - reflexivity.
  - reflexivity.
  - vm_compute. reflexivity.
  - exists self'. split; [exact Hrm | exact Hpipe].
Defined.

(** ** Loading the files *)

Section LoadFacts.

Variable int : string → option Z.

Lemma load_ok files acc loaded :
  load int files acc = Ok loaded ↔
  ∃ new, loaded = acc ++ new
         ∧ Forall2 (λ file ops, read_process_from_csv int file = Ok ops) files new.
Proof.
  revert acc. induction files as [|file rest IH]; intros acc; simpl.
  - split.
    + intros [= <-]. exists []. by rewrite app_nil_r.
    + intros (new & -> & ->%Forall2_nil_inv_l). by rewrite app_nil_r.
  - destruct (read_process_from_csv int file) as [ops|e] eqn:Hread.
    + rewrite IH. split.
      * intros (new & -> & Hall). exists (ops :: new).
        split; [by rewrite <- app_assoc|]. by constructor.
      * intros (new & -> & Hall).
        apply Forall2_cons_inv_l in Hall as (ops' & new' & Hops & Hall & ->).
        rewrite Hread in Hops. injection Hops as <-.
        exists new'. by rewrite <- app_assoc.
    + split; [done|]. intros (new & _ & Hall).
      apply Forall2_cons_inv_l in Hall as (ops' & new' & Hops & _).
      by rewrite Hread in Hops.
Qed.

Lemma load_raise files acc e :
  load int files acc = Raise e ↔
  ∃ before file after,
    files = before ++ file :: after
    ∧ Forall (λ f, ∃ ops, read_process_from_csv int f = Ok ops) before
    ∧ read_process_from_csv int file = Raise e.
Proof.
  revert acc. induction files as [|file rest IH]; intros acc; simpl.
  - split; [done|]. intros (before & f & after & Heq & _). by destruct before.
  - destruct (read_process_from_csv int file) as [ops|e'] eqn:Hread.
    + rewrite IH. split.
      * intros (before & f & after & -> & Hall & Hf).
        exists (file :: before), f, after. split_and!; [done| |done].
        constructor; [by exists ops|done].
      * intros (before & f & after & Heq & Hall & Hf).
        destruct before as [|b before]; simpl in Heq; injection Heq as <- ->.
        { congruence. }
        apply Forall_cons in Hall as [_ Hall]. by exists before, f, after.
    + split.
      * intros [= <-]. by exists [], file, rest.
      * intros (before & f & after & Heq & Hall & Hf).
        destruct before as [|b before]; simpl in Heq; injection Heq as <- ->.
        { congruence. }
        apply Forall_cons in Hall as [[ops Hops] _]. congruence.
Qed.

End LoadFacts.

(** X11: [schedule_processes] starts its threads exactly when every file
    can be read, and then thread [k] runs the operations of the [k]-th
    file under process id [k], with no time stamp yet, over the registry of
    new resources; otherwise it raises what the first file that cannot be
    read raises, and the files after it are not read. *)
Theorem schedule_setup_spec (int : string → option Z)
    (files : list (list (list string))) :
  (∀ c, schedule_setup int files = Ok c ↔
        ∃ loaded,
          Forall2 (λ file ops, read_process_from_csv int file = Ok ops) files loaded
          ∧ c = started loaded)
  ∧ (∀ e, schedule_setup int files = Raise e ↔
          ∃ before file after,
            files = before ++ file :: after
            ∧ Forall (λ f, ∃ ops, read_process_from_csv int f = Ok ops) before
            ∧ read_process_from_csv int file = Raise e)
  ∧ (∀ loaded k,
       threads (started loaded) !! k
       = (λ ops, mkRunner (mkProcess k ops None None) NotStarted) <$> loaded !! k)
  ∧ (∀ loaded key self,
       resource_manager (started loaded) !! key = Some self ↔
       key ∈ RESOURCE_TYPES ∧ self = Resource.init key).
Proof.
  split_and!.
  - intros c. unfold schedule_setup.
    destruct (load int files []) as [loaded|e] eqn:Hload.
    + apply load_ok in Hload as (new & -> & Hall). simpl. split.
      * intros [= <-]. by exists new.
      * intros (loaded & Hall' & ->). do 2 f_equal.
        revert loaded Hall Hall'. generalize files. clear.
        induction new as [|ops new IH]; intros files loaded H1 H2.
        -- apply Forall2_nil_inv_r in H1 as ->. by apply Forall2_nil_inv_l in H2.
        -- apply Forall2_cons_inv_r in H1 as (f & fs & Hf & H1 & ->).
           apply Forall2_cons_inv_l in H2 as (ops' & loaded' & Hf' & H2 & ->).
           rewrite Hf in Hf'. injection Hf' as <-. f_equal. by eapply IH.
    + split; [done|]. intros (loaded & Hall & _).
      assert (load int files [] = Ok loaded) as Hok.
      { apply load_ok. by exists loaded. }
      by rewrite Hload in Hok.
  - intros e. unfold schedule_setup. rewrite <- (load_raise int files [] e).
    destruct (load int files []) as [loaded|e']; [done|].
    split; by intros [= <-].
  - intros loaded k. unfold started; simpl. by rewrite list_lookup_imap.
  - intros loaded key self. simpl. apply registry_lookup_some.
Qed.

(** ** The cluster time, with processes that did not finish *)

(** X12: [Total Cluster Time] is computed over the processes that have a
    [start_time] and those that have an [end_time]: it is the greatest
    [end_time] that is set minus the least [start_time] that is set, and
    raises [ValueError] exactly when no process has a [start_time] or none
    has an [end_time], as for an empty list of files. *)
Theorem cluster_time_cases (processes : list Process) :
  match cluster_time processes with
  | Ok total =>
      ∃ s e,
        total = e - s
        ∧ (∃ p, p ∈ processes ∧ start_time p = Some s)
        ∧ (∀ p t, p ∈ processes → start_time p = Some t → s ≤ t)
        ∧ (∃ p, p ∈ processes ∧ end_time p = Some e)
        ∧ (∀ p t, p ∈ processes → end_time p = Some t → t ≤ e)
  | Raise exn =>
      exn = ValueError
      ∧ (Forall (λ p, start_time p = None) processes
         ∨ Forall (λ p, end_time p = None) processes)
  end.
Proof.
  assert (∀ (f : Process → option Z), omap f processes = [] →
            Forall (λ p, f p = None) processes) as Hnone.
  { intros f. induction processes as [|p ps IH]; simpl; [done|].
    destruct (f p) eqn:Hf; [done|]. intros Hnil. constructor; auto. }
  unfold cluster_time.
  destruct (omap start_time processes) as [|s0 ss] eqn:Hs.
  { simpl. split; [done|]. left. by apply Hnone. }
  destruct (py_min_spec (s0 :: ss)) as (s & -> & Hsin & Hsle); [done|].
  destruct (omap end_time processes) as [|e0 es] eqn:He.
  { simpl. split; [done|]. right. by apply Hnone. }
  destruct (py_max_spec (e0 :: es)) as (e & -> & Hein & Hele); [done|].
  rewrite <- Hs in Hsin, Hsle. rewrite <- He in Hein, Hele.
  exists s, e. split_and!; [done| | | |].
  - apply list_elem_of_omap in Hsin as (p & ? & ?). by exists p.
  - intros p t Hp Ht. apply Hsle. apply list_elem_of_omap. by exists p.
  - apply list_elem_of_omap in Hein as (p & ? & ?). by exists p.
  - intros p t Hp Ht. apply Hele. apply list_elem_of_omap. by exists p.
Qed.

(** ** The report *)

Lemma report_processes_cons rm p ps out :
  report_processes rm (p :: ps) out =
  match py_sub (end_time p) (start_time p) with
  | Raise e => (out, Raise e)
  | Ok elapsed =>
      match Process.get_downtime rm p with
      | Raise e => (out ++ [FinishedIn (process_id p) elapsed], Raise e)
      | Ok downtime =>
          report_processes rm ps
            ((out ++ [FinishedIn (process_id p) elapsed])
             ++ [Downtime (process_id p) downtime])
      end
  end.
Proof.
  simpl. unfold bind, lift, print, modify.
  destruct (py_sub (end_time p) (start_time p)); [|done].
  by destruct (Process.get_downtime rm p).
Qed.

Lemma report_processes_ok rm ps out :
  Forall (λ p, ∃ lines, reported rm p lines) ps →
  ∃ lss, Forall2 (reported rm) ps lss
         ∧ report_processes rm ps out = (out ++ concat lss, Ok tt).
Proof.
  revert out. induction ps as [|p ps IH]; intros out Hall.
  - exists []. split; [done|]. simpl. by rewrite app_nil_r.
  - apply Forall_cons in Hall as [(lines & s & e & m & Hs & He & Hm & ->) Hall].
    destruct (IH ((out ++ [FinishedIn (process_id p) (e - s)])
                  ++ [Downtime (process_id p) m]) Hall) as (lss & Hlss & Hrep).
    exists ([FinishedIn (process_id p) (e - s); Downtime (process_id p) m] :: lss).
    split.
    + constructor; [|done]. by exists s, e, m.
    + rewrite report_processes_cons, He, Hs, Hm. simpl. rewrite Hrep.
      by rewrite <- !app_assoc.
Qed.

Lemma get_downtime_raises rm p e :
  Process.get_downtime rm p = Raise e → e = TypeError ∨ ∃ key, e = KeyError key.
Proof.
  unfold Process.get_downtime. destruct (end_time p); [|done].
  destruct (start_time p); [|intros [= <-]; by left].
  generalize ((λ _ : Resource, z - z0) <$> rm).
  induction (operations p) as [|[[rt op] d] rest IH]; intros m; simpl; [done|].
  destruct (m !! rt); [apply IH|]. intros [= <-]. right. by exists rt.
Qed.

Lemma get_downtime_raises_key rm p s t e :
  start_time p = Some s → end_time p = Some t →
  Process.get_downtime rm p = Raise e → ∃ key, e = KeyError key.
Proof.
  intros Hs Ht Hm. destruct (get_downtime_raises _ _ _ Hm) as [->|]; [|done].
  unfold Process.get_downtime in Hm. rewrite Ht, Hs in Hm.
  revert Hm. generalize ((λ _ : Resource, t - s) <$> rm).
  induction (operations p) as [|[[rt op] d] rest IH]; intros m; simpl; [done|].
  destruct (m !! rt); [apply IH|done].
Qed.

(** The loop of the report stops at the first process it cannot report:
    with [TypeError] where a time stamp is missing, before anything is
    printed for that process, or with the [KeyError] of [get_downtime],
    after the elapsed time of that process is printed. *)
Lemma report_processes_raise rm ps out k p0 :
  ps !! k = Some p0 → end_time p0 = None →
  ∃ before p after lss,
    ps = before ++ p :: after
    ∧ (length before ≤ k)%nat
    ∧ Forall2 (reported rm) before lss
    ∧ ((py_sub (end_time p) (start_time p) = Raise TypeError
        ∧ report_processes rm ps out = (out ++ concat lss, Raise TypeError))
       ∨ ∃ s t key,
           start_time p = Some s ∧ end_time p = Some t
           ∧ Process.get_downtime rm p = Raise (KeyError key)
           ∧ report_processes rm ps out
             = (out ++ concat lss ++ [FinishedIn (process_id p) (t - s)],
                Raise (KeyError key))).
Proof.
  revert out k. induction ps as [|p ps IH]; intros out k Hk Hnone; [done|].
  rewrite report_processes_cons.
  destruct (end_time p) as [t|] eqn:Ht.
  2:{ exists [], p, ps, []. simpl. rewrite app_nil_r.
      split_and!; [done|lia|done|]. left. by rewrite Ht. }
  destruct (start_time p) as [s|] eqn:Hs.
  2:{ exists [], p, ps, []. simpl. rewrite app_nil_r.
      split_and!; [done|lia|done|]. left. by rewrite Ht, Hs. }
  simpl. destruct (Process.get_downtime rm p) as [m|e] eqn:Hm.
  2:{ destruct (get_downtime_raises_key _ _ _ _ _ Hs Ht Hm) as [key ->].
      exists [], p, ps, []. split_and!; [done|simpl; lia|done|]. right.
      exists s, t, key. by split_and!. }
  destruct k as [|k]; [simpl in Hk; congruence|]. simpl in Hk.
  destruct (IH ((out ++ [FinishedIn (process_id p) (t - s)])
                ++ [Downtime (process_id p) m]) k Hk Hnone)
    as (before & p' & after & lss & -> & Hlen & Hlss & Hrep).
  exists (p :: before), p', after,
    ([FinishedIn (process_id p) (t - s); Downtime (process_id p) m] :: lss).
  split_and!; [done|simpl; lia| |].
  - constructor; [|done]. by exists s, t, m.
  - destruct Hrep as [[Hsub ->]|(s' & t' & key & Hs' & Ht' & Hm' & ->)].
    + left. split; [done|]. simpl. by rewrite <- !app_assoc.
    + right. exists s', t', key. split_and!; [done..|].
      simpl. by rewrite <- !app_assoc.
Qed.

(** X13: after a run in which every process has finished (there is at
    least one) and every operation names a resource of the registry, the
    report prints, for each process in the order of the files, its elapsed
    time and its downtime dictionary, then the total cluster time, and
    returns. *)
Theorem report_of_finished_run (time_sleep : Z → Result unit)
    (loaded : list (list Operation)) (c : Cluster) (out : list Line) :
  cluster_reachable time_sleep loaded c →
  threads c ≠ [] →
  Forall (λ r, control r = Finished) (threads c) →
  Forall (Forall (λ op : Operation, op.1.1 ∈ RESOURCE_TYPES)) loaded →
  let processes := proc <$> threads c in
  ∃ lss total,
    Forall2 (reported (resource_manager c)) processes lss
    ∧ cluster_time processes = Ok total
    ∧ report (resource_manager c) processes out
      = (out ++ concat lss ++ [TotalClusterTime total], Ok tt).
Proof.
  intros Hreach Hne Hfin Hwf processes.
  destruct (cluster_ok_reachable _ _ _ Hreach) as [[Hdom _] Hth].
  assert (Forall (λ p, is_Some (start_time p) ∧ is_Some (end_time p)
                       ∧ Forall (λ op : Operation, op.1.1 ∈ dom (resource_manager c))
                           (operations p)) processes) as Hset.
  { apply Forall_fmap, Forall_lookup. intros k r Hk. simpl.
    destruct (Hth _ _ Hk) as (_ & Hops & Htimes).
    rewrite Forall_lookup in Hfin. unfold times_ok in Htimes.
    rewrite (Hfin _ _ Hk) in Htimes. destruct Htimes. split_and!; [done..|].
    rewrite Hdom. rewrite Forall_lookup in Hwf. by eapply Hwf. }
  destruct (report_processes_ok (resource_manager c) processes out)
    as (lss & Hlss & Hrep).
  { eapply Forall_impl; [done|]. intros p ([s Hs] & [e He] & Hops). simpl.
    destruct (get_downtime_spec _ _ _ _ Hs He Hops) as (m & Hm & _).
    eexists. by exists s, e, m. }
  destruct (cluster_time_spec processes) as (s & e & Hct & _).
  { unfold processes. by destruct (threads c). }
  { eapply Forall_impl; [done|]. by intros p (? & _). }
  { eapply Forall_impl; [done|]. by intros p (_ & ? & _). }
  exists lss, (e - s). split_and!; [done..|].
  unfold report, bind, lift, print, modify. rewrite Hrep, Hct. simpl.
  by rewrite <- app_assoc.
Qed.

Lemma report_of_finished_run_witness :
  let loaded := [[("inc", "0x100", 10)]]%string in
  let tr := [Run 0 1000; Run 0 1000; Work "inc" Pickup; Work "inc" Finish;
             Work "inc" Callback; Run 0 1010; Run 0 1010] in
  let c := default (started []) (cluster_exec py_sleep tr (started loaded)) in
  ∃ lss total,
    cluster_time (proc <$> threads c) = Ok total
    ∧ report (resource_manager c) (proc <$> threads c) []
      = ([] ++ concat lss ++ [TotalClusterTime total], Ok tt).
Proof.
  intros loaded tr c.
  destruct (report_of_finished_run py_sleep loaded c []) as (lss & total & _ & H1 & H2).
  - exists tr. vm_compute. reflexivity.
  - vm_compute. discriminate.
  - vm_compute. repeat constructor.
  - apply (bool_decide_unpack _). vm_compute. exact I.
  - exists lss, total. split; [exact H1 | exact H2].
Defined.

(** X14: after a run in which the thread of process [k] has caught an
    exception, the report raises and prints no total cluster time.  It
    stops at the first process [j], [j ≤ k], that it cannot report, after
    the two lines of every process before [j]: either process [j] has not
    set [end_time], and the report raises [TypeError] with nothing printed
    for [j]; or process [j], [j < k], has finished and its [get_downtime]
    raises [KeyError], which the report raises after printing the elapsed
    time of [j]. *)
Theorem report_of_crashed_run (time_sleep : Z → Result unit)
    (loaded : list (list Operation)) (c : Cluster) (k : nat) (r : Runner)
    (e : Exn) (out : list Line) :
  cluster_reachable time_sleep loaded c →
  threads c !! k = Some r →
  control r = Caught e →
  let rm := resource_manager c in
  let processes := proc <$> threads c in
  ∃ before p after lss,
    processes = before ++ p :: after
    ∧ (length before ≤ k)%nat
    ∧ process_id p = length before
    ∧ Forall2 (reported rm) before lss
    ∧ ((end_time p = None
        ∧ report rm processes out = (out ++ concat lss, Raise TypeError))
       ∨ ∃ s t key,
           start_time p = Some s ∧ end_time p = Some t
           ∧ Process.get_downtime rm p = Raise (KeyError key)
           ∧ (length before < k)%nat
           ∧ report rm processes out
             = (out ++ concat lss ++ [FinishedIn (process_id p) (t - s)],
                Raise (KeyError key))).
Proof.
  intros Hreach Hk Hctl rm processes.
  destruct (cluster_ok_reachable _ _ _ Hreach) as [_ Hth].
  destruct (Hth _ _ Hk) as (_ & _ & Htimes).
  unfold times_ok in Htimes. rewrite Hctl in Htimes. destruct Htimes as [_ Hend].
  destruct (report_processes_raise rm processes out k (proc r))
    as (before & p & after & lss & Heq & Hlen & Hlss & Hrep); [|done|].
  { unfold processes. by rewrite list_lookup_fmap, Hk. }
  assert (processes !! length before = Some p) as Hp.
  { rewrite Heq. by apply list_lookup_middle. }
  unfold processes in Hp. rewrite list_lookup_fmap in Hp.
  destruct (threads c !! length before) as [r'|] eqn:Hr'; [|done].
  injection Hp as <-.
  destruct (Hth _ _ Hr') as (Hpid & _ & Htimes').
  exists before, (proc r'), after, lss. split_and!; [done..|].
  destruct Hrep as [[Hsub Hrep]|(s & t & key & Hs & Ht & Hm & Hrep)].
  - left. split.
    + unfold times_ok in Htimes'.
      destruct (end_time (proc r')) as [t|]; [|done].
      destruct (start_time (proc r')) as [s|]; [done|].
      destruct (control r'); destruct Htimes' as [? ?]; try done;
        by match goal with H : is_Some None |- _ => destruct H end.
    + unfold report, bind. by rewrite Hrep.
  - right. exists s, t, key. split_and!; [done..| |].
    + destruct (decide (length before = k)) as [Heqk|]; [|lia].
      rewrite Heqk, Hk in Hr'. injection Hr' as <-. congruence.
    + unfold report, bind. by rewrite Hrep.
Qed.

Lemma report_of_crashed_run_witness :
  let loaded := [[("inc", "0x100", 10)]; [("cpu", "0x100", 10)]]%string in
  let tr := [Run 0 1000; Run 0 1000; Work "inc" Pickup; Work "inc" Finish;
             Work "inc" Callback; Run 0 1010; Run 0 1010;
             Run 1 1000; Run 1 1000] in
  let c := default (started []) (cluster_exec py_sleep tr (started loaded)) in
  let rm := resource_manager c in
  let processes := proc <$> threads c in
  ∃ before p after lss,
    processes = before ++ p :: after
    ∧ (length before ≤ 1)%nat
    ∧ process_id p = length before
    ∧ Forall2 (reported rm) before lss
    ∧ ((end_time p = None
        ∧ report rm processes [] = ([] ++ concat lss, Raise TypeError))
       ∨ ∃ s t key,
           start_time p = Some s ∧ end_time p = Some t
           ∧ Process.get_downtime rm p = Raise (KeyError key)
           ∧ (length before < 1)%nat
           ∧ report rm processes []
             = ([] ++ concat lss ++ [FinishedIn (process_id p) (t - s)],
                Raise (KeyError key))).
Proof.
  intros loaded tr c rm processes.
  apply (report_of_crashed_run py_sleep loaded c 1
           (mkRunner (mkProcess 1 [("cpu", "0x100", 10)]%string (Some 1000) None)
              (Caught (KeyError "cpu"))) (KeyError "cpu") []).
  - exists tr. vm_compute. reflexivity.
  - vm_compute. reflexivity.
  - reflexivity.
Defined.

(** The report of that run: the two lines of process 0, which has
    finished, then [TypeError] at process 1, which has caught [KeyError]. *)
Example report_of_crashed_run_lines :
  let loaded := [[("inc", "0x100", 10)]; [("cpu", "0x100", 10)]]%string in
  let tr := [Run 0 1000; Run 0 1000; Work "inc" Pickup; Work "inc" Finish;
             Work "inc" Callback; Run 0 1010; Run 0 1010;
             Run 1 1000; Run 1 1000] in
  (c ← cluster_exec py_sleep tr (started loaded);
   let '(out, res) := report (resource_manager c) (proc <$> threads c) [] in
   Some (control <$> threads c,
         (λ line, match line with
                  | FinishedIn pid ms => (pid, Some ms, [])
                  | Downtime pid m => (pid, None, map_to_list m)
                  | TotalClusterTime ms => (0%nat, Some ms, [])
                  end) <$> out,
         res))
  = Some ([Finished; Caught (KeyError "cpu")],
          [(0%nat, Some 10, []);
           (0%nat, None, map_to_list (<["inc"%string := 0]>
                                        ((λ _ : Resource, 10) <$> registry)))],
          Raise TypeError).
Proof. vm_compute. reflexivity. Qed.

(** ** [get_downtime] and names outside the registry *)

Lemma charge_raise (operations : list Operation) (downtime : gmap string Z) e :
  Process.charge operations downtime = Raise e ↔
  ∃ before rt op d after,
    operations = before ++ (rt, op, d) :: after
    ∧ Forall (λ o : Operation, o.1.1 ∈ dom downtime) before
    ∧ (rt ∉ dom downtime)
    ∧ e = KeyError rt.
Proof.
  revert downtime. induction operations as [|[[rt op] d] rest IH];
    intros downtime; simpl.
  - split; [done|]. intros (before & ? & ? & ? & ? & Heq & _). by destruct before.
  - destruct (downtime !! rt) as [v|] eqn:Hv.
    + assert (dom (<[rt := v - d]> downtime) = dom downtime) as Hdom.
      { rewrite dom_insert_L. apply subseteq_union_1_L.
        apply singleton_subseteq_l. by eapply elem_of_dom_2. }
      rewrite IH, Hdom. split.
      * intros (before & rt' & op' & d' & after & -> & Hall & Hrt & ->).
        exists ((rt, op, d) :: before), rt', op', d', after.
        split_and!; [done| |done..]. constructor; [|done]. simpl.
        by eapply elem_of_dom_2.
      * intros (before & rt' & op' & d' & after & Heq & Hall & Hrt & ->).
        destruct before as [|b before]; simpl in Heq; injection Heq as <- ->.
        { by apply not_elem_of_dom in Hrt; rewrite Hrt in Hv. }
        apply Forall_cons in Hall as [_ Hall].
        by exists before, rt', op', d', after.
    + split.
      * intros [= <-]. exists [], rt, op, d, rest.
        split_and!; [done..| |done]. by apply not_elem_of_dom.
      * intros (before & rt' & op' & d' & after & Heq & Hall & Hrt & ->).
        destruct before as [|b before]; simpl in Heq; injection Heq as <- ->.
        { done. }
        apply Forall_cons in Hall as [Hin _]. simpl in Hin.
        by apply elem_of_dom in Hin as [? Hin]; rewrite Hin in Hv.
Qed.

(** X15: for a process with both time stamps set, [get_downtime] raises
    exactly when an operation names a resource outside the registry, and
    then it raises [KeyError] on the first such name in the list of
    operations; it raises nothing else. *)
Theorem get_downtime_key_error_iff (rm : gmap string Resource) (self : Process)
    (s e : Z) (exn : Exn) :
  start_time self = Some s →
  end_time self = Some e →
  Process.get_downtime rm self = Raise exn ↔
  ∃ before rt op d after,
    operations self = before ++ (rt, op, d) :: after
    ∧ Forall (λ o : Operation, o.1.1 ∈ dom rm) before
    ∧ (rt ∉ dom rm)
    ∧ exn = KeyError rt.
Proof.
  intros Hs He. unfold Process.get_downtime. rewrite He, Hs.
  rewrite charge_raise. by rewrite dom_fmap_L.
Qed.

Lemma get_downtime_key_error_iff_witness :
  Process.get_downtime registry
    (mkProcess 0 [("arm", "0x500", 5); ("foo", "0x1", 7); ("bar", "0x1", 7)]%string
       (Some 1000) (Some 1012))
  = Raise (KeyError "foo").
Proof.
  apply (get_downtime_key_error_iff registry
           (mkProcess 0 [("arm", "0x500", 5); ("foo", "0x1", 7); ("bar", "0x1", 7)]%string
              (Some 1000) (Some 1012))
           1000 1012 (KeyError "foo") eq_refl eq_refl).
  exists [("arm", "0x500", 5)]%string, "foo"%string, "0x1"%string, 7,
    [("bar", "0x1", 7)]%string.
  split_and!; [reflexivity| | |reflexivity].
  - apply (bool_decide_unpack _). vm_compute. exact I.
  - apply (bool_decide_unpack _). vm_compute. exact I.
Defined.

(** ** The registry in a run *)

(** X16: the registry is the same set of five names in every state of a
    run, every resource keeps the name it is registered under, and the
    number of threads is the number of files loaded. *)
Theorem registry_fixed (time_sleep : Z → Result unit)
    (loaded : list (list Operation)) (c : Cluster) :
  cluster_reachable time_sleep loaded c →
  dom (resource_manager c) = RESOURCE_TYPES
  ∧ (∀ key self, resource_manager c !! key = Some self → name self = key)
  ∧ length (threads c) = length loaded.
Proof.
  intros Hreach.
  destruct (cluster_ok_reachable _ _ _ Hreach) as [[Hdom Hall] Hth].
  split_and!; [done| |].
  - intros key self Hkey. by destruct (Hall _ _ Hkey).
  - revert c Hreach Hdom Hall Hth.
    apply (cluster_reachable_ind time_sleep
             (λ c, _ → _ → _ → length (threads c) = length loaded)).
    + intros _ _ _. unfold started; simpl. by rewrite length_imap.
    + intros l c0 c' Hr IH Hstep _ _ _.
      destruct (cluster_ok_reachable _ _ _ Hr) as [[Hdom0 Hall0] Hth0].
      rewrite <- (IH Hdom0 Hall0 Hth0).
      destruct l as [k now|key l].
      * destruct (cluster_step_run _ _ _ _ _ Hstep) as (r & r' & c1 & _ & Hrs & ->).
        destruct (run_step_frame _ _ _ _ _ Hrs) as [_ Hthreads]. simpl.
        by rewrite length_insert, Hthreads.
      * by destruct (cluster_step_work _ _ _ _ _ Hstep) as (? & ? & ? & _ & _ & ->).
Qed.

Lemma registry_fixed_witness :
  let loaded := [[("inc", "0x100", 10)]]%string in
  let tr := [Run 0 1000; Run 0 1000; Work "inc" Pickup] in
  let c := default (started []) (cluster_exec py_sleep tr (started loaded)) in
  dom (resource_manager c) = RESOURCE_TYPES ∧ length (threads c) = length loaded.
Proof.
  intros loaded tr c.
  destruct (registry_fixed py_sleep loaded c) as (H1 & _ & H2).
  - exists tr. vm_compute. reflexivity.
  - split; [exact H1 | exact H2].
Defined.

(** ** The index of the loop and the origin of the entries *)

Section Origin.

Variable time_sleep : Z → Result unit.

(** The move that makes a request, with what it reads from the list of
    operations. *)
Lemma run_step_submit now r c r' c' i' ev :
  registry_ok time_sleep (resource_manager c) →
  Process.run_step now r c = Some (r', c') →
  control r' = Blocked i' ev →
  ∃ i rt op0 d0 res entries,
    control r = LoopHead i
    ∧ operations (proc r) !! i = Some (rt, op0, d0)
    ∧ (i ≤ i')%nat ∧ (i' < length (operations (proc r)))%nat
    ∧ resource_manager c !! rt = Some res
    ∧ resource_manager c'
      = <[rt := (dispatch_if_idle (set_queue (queue res ++ entries) res)).1]>
          (resource_manager c)
    ∧ ((is_fused rt op0 = false
        ∧ entries = [(process_id (proc r), op0, d0, Some ev)])
       ∨ (rt = "arm"%string ∧ op0 = "0x500"%string
          ∧ ∃ nm' op' d,
              operations (proc r) !! (i + 1)%nat = Some (nm', op', d)
              ∧ entries = [(process_id (proc r), "0x500"%string, d0, None);
                           (process_id (proc r), "0x600"%string, d, Some ev)])).
Proof.
  intros [_ Hall]. unfold Process.run_step.
  destruct (control r) as [|i|i ev0| |e] eqn:Hctl; try done.
  - by intros [= <- <-].
  - case_bool_decide as Hlt; [|by intros [= <- <-]].
    rewrite run_body_unfold.
    destruct (operations (proc r) !! i) as [[[rt op] d]|] eqn:Hi;
      [|by intros [= <- <-]].
    destruct (resource_manager c !! rt) as [res|] eqn:Hres; [|by intros [= <- <-]].
    destruct (Hall _ _ Hres) as [Hname _]. simpl.
    destruct (is_fused rt op) eqn:Hf.
    + destruct (operations (proc r) !! (i + 1)%nat) as [[[nm' op'] d']|] eqn:Hnxt;
        [|by intros [= <- <-]].
      apply andb_true_iff in Hf as [->%String.eqb_eq ->%String.eqb_eq].
      destruct (request_fused_effect res (process_id (proc r)) d d' []
                  (next_event c) Hname) as [Hok _].
      simpl. rewrite Hok. intros [= <- <-] [= <- <-].
      exists i, "arm"%string, "0x500"%string, d, res,
        [(process_id (proc r), "0x500"%string, d, None);
         (process_id (proc r), "0x600"%string, d', Some (next_event c))].
      split_and!; [done..|lia|by eapply lookup_lt_Some|done| |].
      * simpl. by rewrite request_fused_eq.
      * right. split_and!; [done..|]. by exists nm', op', d'.
    + rewrite <- Hname in Hf. simpl.
      rewrite (request_plain_eq res (process_id (proc r)) op d [] (next_event c) Hf).
      rewrite dispatch_if_idle_ok. intros [= <- <-] [= <- <-].
      exists i, rt, op, d, res, [(process_id (proc r), op, d, Some (next_event c))].
      split_and!; [done..| |]; [done|]. left. by rewrite Hname in Hf.
  - destruct (is_set (flags c) ev0); [|done]. by intros [= <- <-].
Qed.

Lemma run_step_not_blocked now r c r' c' :
  registry_ok time_sleep (resource_manager c) →
  Process.run_step now r c = Some (r', c') →
  (∀ i ev, control r' ≠ Blocked i ev) →
  resource_manager c' = resource_manager c.
Proof.
  intros Hreg Hrs Hnb.
  destruct (run_step_cases _ _ _ _ _ _ Hreg Hrs)
    as (_ & _ & [(Hrm & _)|(i & i' & rt & res & es & op & d & _ & -> & _)]);
    [done|].
  by destruct (Hnb i' (next_event c)).
Qed.

Lemma index_kept loaded c :
  cluster_reachable time_sleep loaded c →
  ∀ k r, threads c !! k = Some r →
    match control r with
    | LoopHead i => (i ≤ length (operations (proc r)))%nat
    | Blocked i _ => (i < length (operations (proc r)))%nat
    | _ => True
    end.
Proof.
  apply (cluster_reachable_ind time_sleep
           (λ c, ∀ k r, threads c !! k = Some r →
                   match control r with
                   | LoopHead i => (i ≤ length (operations (proc r)))%nat
                   | Blocked i _ => (i < length (operations (proc r)))%nat
                   | _ => True
                   end)).
  - intros k r. unfold started; simpl. rewrite list_lookup_imap.
    destruct (loaded !! k); [|done]. by intros [= <-].
  - intros l c0 c' Hr IH Hstep k r Hk.
    destruct (cluster_ok_reachable _ _ _ Hr) as [Hreg _].
    destruct l as [k0 now|key l].
    2:{ destruct (cluster_step_work _ _ _ _ _ Hstep) as (? & ? & ? & _ & _ & ->).
        by apply (IH k). }
    destruct (cluster_step_run _ _ _ _ _ Hstep) as (r0 & r1 & c1 & Hk0 & Hrs & ->).
    destruct (run_step_frame _ _ _ _ _ Hrs) as [_ Hth]. simpl in Hk.
    rewrite Hth in Hk. destruct (decide (k0 = k)) as [->|Hne].
    2:{ rewrite list_lookup_insert_ne in Hk by done. by apply (IH k). }
    rewrite list_lookup_insert_eq in Hk by (by eapply lookup_lt_Some).
    injection Hk as <-. pose proof (IH _ _ Hk0) as Hold.
    destruct (control r1) as [|i|i ev| |e] eqn:Hctl1; try done.
    + unfold Process.run_step in Hrs.
      destruct (control r0) as [|i0|i0 ev0| |e0]; try done.
      * injection Hrs as <- <-. simpl in Hctl1. injection Hctl1 as <-. simpl. lia.
      * case_bool_decide.
        -- by destruct (Process.run_body (proc r0) i0 c0) as [c2 [[i' ev]|e]];
             injection Hrs as <- <-.
        -- by injection Hrs as <- <-.
      * destruct (is_set (flags c0) ev0); [|done]. injection Hrs as <- <-.
        simpl in *. injection Hctl1 as <-. lia.
    + destruct (run_step_submit _ _ _ _ _ _ _ Hreg Hrs Hctl1)
        as (i0 & rt & op0 & d0 & res & es & _ & _ & _ & Hlt & _).
      destruct (run_step_effect _ _ _ _ _ _ Hreg Hrs) as (_ & _ & _ & _ & -> & _).
      done.
Qed.

Lemma pipeline_step l self fl self' fl' :
  (∀ pid op dur ev, l ≠ Request pid op dur ev) →
  step time_sleep l (self, fl) = Some (self', fl') →
  pipeline self' = pipeline self.
Proof.
  intros Hl Hstep. destruct l as [pid op dur ev| | | |]; simpl in Hstep.
  - by destruct (Hl pid op dur ev).
  - destruct (pickup self) as [s1|] eqn:Hp; simplify_eq/=.
    by eapply pipeline_pickup.
  - by eapply pipeline_finish.
  - destruct (callback self) as [[s1 r]|] eqn:Hc; simplify_eq/=.
    by eapply pipeline_callback.
  - by injection Hstep as <- <-.
Qed.

Lemma requested_kept loaded c :
  cluster_reachable time_sleep loaded c →
  ∀ key self entry,
    resource_manager c !! key = Some self → entry ∈ pipeline self →
    requested loaded key entry.
Proof.
  apply (cluster_reachable_ind time_sleep
           (λ c, ∀ key self entry,
              resource_manager c !! key = Some self → entry ∈ pipeline self →
              requested loaded key entry)).
  - intros key self entry [_ ->]%registry_lookup_some Hin.
    by apply elem_of_nil in Hin.
  - intros l c0 c' Hr IH Hstep key self entry Hkey Hin.
    destruct (cluster_ok_reachable _ _ _ Hr) as [Hreg Hth].
    destruct l as [k0 now|key0 l].
    + destruct (cluster_step_run _ _ _ _ _ Hstep) as (r0 & r1 & c1 & Hk0 & Hrs & ->).
      simpl in Hkey.
      destruct (control r1) as [|i|i' ev| |e] eqn:Hctl1;
        try (rewrite (run_step_not_blocked _ _ _ _ _ Hreg Hrs) in Hkey;
             [by eapply IH|by rewrite Hctl1]).
      destruct (run_step_submit _ _ _ _ _ _ _ Hreg Hrs Hctl1)
        as (i & rt & op0 & d0 & res & es & _ & Hi & _ & _ & Hres & Hrm & Hes).
      rewrite Hrm in Hkey. destruct (decide (rt = key)) as [->|Hne].
      2:{ rewrite lookup_insert_ne in Hkey by done. by eapply IH. }
      rewrite lookup_insert_eq in Hkey. injection Hkey as <-.
      rewrite pipeline_dispatch_if_idle, pipeline_set_queue in Hin.
      assert (entry ∈ pipeline res ∨ entry ∈ es) as [Hold|Hnew].
      { unfold pipeline. rewrite !elem_of_app in Hin. rewrite !elem_of_app.
        tauto. }
      { by eapply IH. }
      destruct (Hth _ _ Hk0) as (Hpid & Hops & _).
      exists (operations (proc r0)), i.
      destruct Hes as [[Hf ->]|(-> & -> & nm' & op' & d & Hnxt & ->)].
      * apply list_elem_of_singleton in Hnew as ->. simpl. rewrite Hpid.
        split; [done|]. left. split; [done|]. rewrite Hf. by split.
      * apply elem_of_cons in Hnew as [->|Hnew]; simpl.
        -- rewrite Hpid. split; [done|]. left. by split.
        -- apply list_elem_of_singleton in Hnew as ->. simpl. rewrite Hpid.
           split; [done|]. right. split_and!; [done..|by exists d0|].
           by exists nm', op'.
    + destruct (cluster_step_work _ _ _ _ _ Hstep)
        as (self0 & self' & fl' & Hres & Hst & ->). simpl in Hkey.
      destruct (decide (key0 = key)) as [->|Hne].
      2:{ rewrite lookup_insert_ne in Hkey by done. by eapply IH. }
      rewrite lookup_insert_eq in Hkey. injection Hkey as <-.
      rewrite (pipeline_step l self0 (flags c0) self' fl') in Hin; [by eapply IH| |done].
      intros pid op dur ev ->. by simpl in Hstep.
Qed.

End Origin.

(** X17: in every state of a run, the index of the loop of [Process.run]
    is at most the length of the list of operations at the head of the
    loop and less than it while the thread waits: [self.operations[i]] in
    line 97 never reads past the end. *)
Theorem loop_index_in_bounds (time_sleep : Z → Result unit)
    (loaded : list (list Operation)) (c : Cluster) (k : nat) (r : Runner) :
  cluster_reachable time_sleep loaded c →
  threads c !! k = Some r →
  (∀ i, control r = LoopHead i → (i ≤ length (operations (proc r)))%nat)
  ∧ (∀ i ev, control r = Blocked i ev → (i < length (operations (proc r)))%nat).
Proof.
  intros Hr Hk. pose proof (index_kept time_sleep loaded c Hr k r Hk) as H.
  split.
  - intros i Hctl. by rewrite Hctl in H.
  - intros i ev Hctl. by rewrite Hctl in H.
Qed.

Lemma loop_index_in_bounds_witness :
  let ops := [("arm", "0x500", 5); ("inc", "0x300", 15)]%string in
  let tr := [Run 0 1000; Run 0 1000] in
  let c := default (started []) (cluster_exec py_sleep tr (started [ops])) in
  (1 < length ops)%nat.
Proof.
  intros ops tr c.
  refine (proj2 (loop_index_in_bounds py_sleep [ops] c 0
                   (mkRunner (mkProcess 0 ops (Some 1000) None) (Blocked 1 0%nat))
                   _ _) 1%nat 0%nat eq_refl).
  - exists tr. vm_compute. reflexivity.
  - vm_compute. reflexivity.
Defined.

(** X18: in every state of a run, every entry a resource holds or has
    executed was asked for by a loaded process: it carries the id of the
    process and the opcode and duration of one of its operations naming this
    resource, or it is the second step of a fused pair on "arm", with
    opcode "0x600" and the duration of the operation that follows the
    fused one; only the first step of a fused pair has no event. *)
Theorem entries_were_requested (time_sleep : Z → Result unit)
    (loaded : list (list Operation)) (c : Cluster) (key : string)
    (self : Resource) (entry : PendingRequest) :
  cluster_reachable time_sleep loaded c →
  resource_manager c !! key = Some self →
  entry ∈ pipeline self →
  requested loaded key entry.
Proof. intros Hr. by apply (requested_kept time_sleep loaded). Qed.

Lemma entries_were_requested_witness :
  let ops := [("arm", "0x500", 5); ("inc", "0x300", 15)]%string in
  let tr := [Run 0 1000; Run 0 1000] in
  let c := default (started []) (cluster_exec py_sleep tr (started [ops])) in
  requested [ops] "arm" (0%nat, "0x600"%string, 15, Some 0%nat).
Proof.
  intros ops tr c.
  apply (entries_were_requested py_sleep [ops] c "arm"
           (mkResource "arm" true [(0%nat, "0x600"%string, 15, Some 0%nat)] false
              (mkExecutor [(0%nat, "0x500"%string, 5, None)] Idle []))).
  - exists tr. vm_compute. reflexivity.
  - vm_compute. reflexivity.
  - apply (bool_decide_unpack _). vm_compute. exact I.
Defined.

(** ** Waiting at a stranded resource *)

Section Stranded.

Variable time_sleep : Z → Result unit.

(** The move that makes a request makes its event, the one its last entry
    carries and the only one its entries carry. *)
Lemma run_step_submit_event now r c r' c' i' ev :
  registry_ok time_sleep (resource_manager c) →
  Process.run_step now r c = Some (r', c') →
  control r' = Blocked i' ev →
  ev = next_event c ∧ next_event c' = S (next_event c)
  ∧ ∃ rt res entries,
      resource_manager c !! rt = Some res
      ∧ resource_manager c'
        = <[rt := (dispatch_if_idle (set_queue (queue res ++ entries) res)).1]>
            (resource_manager c)
      ∧ ∃ m, ∀ n ev', (∃ pid op d, entries !! n = Some (pid, op, d, Some ev')) →
                       n = m ∧ ev' = ev.
Proof.
  intros Hreg Hrs Hctl.
  destruct (run_step_submit _ _ _ _ _ _ _ _ Hreg Hrs Hctl)
    as (i & rt & op0 & d0 & res & es & _ & _ & _ & _ & Hres & Hrm & Hes).
  destruct (run_step_cases _ _ _ _ _ _ Hreg Hrs)
    as (_ & _ & [(_ & _ & Hnb)|(i0 & i1 & rt1 & res1 & es1 & op1 & d1
                                & _ & -> & _ & _ & Hnext)]).
  { by destruct (Hnb i' ev). }
  simpl in Hctl. injection Hctl as _ <-. split_and!; [done..|].
  exists rt, res, es. split_and!; [done..|].
  destruct Hes as [[_ ->]|(_ & _ & nm' & op' & d & _ & ->)].
  - exists 0%nat. intros [|n] ev' (pid & op & d & Hn); simpl in Hn; [|done].
    by injection Hn as _ _ _ <-.
  - exists 1%nat. intros [|[|n]] ev' (pid & op & d2 & Hn); simpl in Hn; try done.
    by injection Hn as _ _ _ <-.
Qed.

Lemma events_unique_kept loaded c :
  cluster_reachable time_sleep loaded c → events_unique c.
Proof.
  apply (cluster_reachable_ind time_sleep events_unique).
  - split.
    + intros key self n ev [_ ->]%registry_lookup_some (pid & op & d & Hn). done.
    + intros key1 key2 self1 self2 n1 n2 ev [_ ->]%registry_lookup_some _
        (pid & op & d & Hn). done.
  - intros l c0 c' Hr [IHlt IHinj] Hstep.
    destruct (cluster_ok_reachable _ _ _ Hr) as [Hreg _].
    (* a move that leaves every pipeline and makes no event *)
    assert ((next_event c0 ≤ next_event c')%nat →
            (∀ key self', resource_manager c' !! key = Some self' →
               ∃ self, resource_manager c0 !! key = Some self
                       ∧ pipeline self' = pipeline self) →
            events_unique c') as Hsame.
    { intros Hle Hpipe. split.
      - intros key self' n ev Hkey Hc.
        destruct (Hpipe _ _ Hkey) as (self & Hkey0 & Hp).
        unfold carries in Hc. rewrite Hp in Hc.
        pose proof (IHlt _ _ _ _ Hkey0 Hc). lia.
      - intros key1 key2 s1 s2 n1 n2 ev Hk1 Hk2 Hc1 Hc2.
        destruct (Hpipe _ _ Hk1) as (t1 & Hk1' & Hp1).
        destruct (Hpipe _ _ Hk2) as (t2 & Hk2' & Hp2).
        unfold carries in Hc1, Hc2. rewrite Hp1 in Hc1. rewrite Hp2 in Hc2.
        by eapply (IHinj key1 key2 t1 t2). }
    destruct l as [k0 now|key0 l].
    2:{ destruct (cluster_step_work _ _ _ _ _ Hstep)
          as (self0 & self1 & fl' & Hres & Hst & ->).
        apply Hsame; [done|]. simpl. intros key self' Hkey.
        destruct (decide (key0 = key)) as [->|Hne].
        - rewrite lookup_insert_eq in Hkey. injection Hkey as <-.
          exists self0. split; [done|]. eapply pipeline_step; [|done].
          intros pid op dur ev ->. by simpl in Hstep.
        - rewrite lookup_insert_ne in Hkey by done. by exists self'. }
    destruct (cluster_step_run _ _ _ _ _ Hstep) as (r0 & r1 & c1 & Hk0 & Hrs & ->).
    destruct (control r1) as [|i|i' ev| |e] eqn:Hctl1;
      try (destruct (run_step_cases _ _ _ _ _ _ Hreg Hrs)
             as (_ & _ & [(Hrm & Hle & _)|(? & ? & ? & ? & ? & ? & ? & _ & -> & _)]);
           [|done]; apply Hsame; [done|]; simpl; rewrite Hrm;
           intros key self' Hkey; by exists self').
    destruct (run_step_submit_event _ _ _ _ _ _ _ Hreg Hrs Hctl1)
      as (-> & Hnext & rt & res & es & Hres & Hrm & m & Hes).
    (* an entry of the new pipeline is an old one, or the one new carrier *)
    assert (∀ key self' n ev,
              <[rt := (dispatch_if_idle (set_queue (queue res ++ es) res)).1]>
                (resource_manager c0) !! key = Some self' →
              carries self' n ev →
              (∃ self, resource_manager c0 !! key = Some self ∧ carries self n ev
                       ∧ (n < length (pipeline self))%nat)
              ∨ (key = rt ∧ n = (length (pipeline res) + m)%nat
                 ∧ ev = next_event c0)) as Hsplit.
    { intros key self' n ev Hkey (pid & op & d & Hn).
      destruct (decide (rt = key)) as [->|Hne].
      - rewrite lookup_insert_eq in Hkey. injection Hkey as <-.
        rewrite pipeline_dispatch_if_idle, pipeline_set_queue in Hn.
        assert (pipeline res ++ es
                = done_log (executor res) ++ in_flight res ++ queue res ++ es)
          as Heq by (unfold pipeline; by rewrite <- !app_assoc).
        rewrite <- Heq in Hn.
        destruct (decide (n < length (pipeline res))%nat) as [Hlt|Hge].
        + left. exists res. rewrite lookup_app_l in Hn by done.
          split_and!; [done| |done]. by exists pid, op, d.
        + right. rewrite lookup_app_r in Hn by lia.
          destruct (Hes (n - length (pipeline res))%nat ev) as [Hm ->].
          { by exists pid, op, d. }
          split_and!; [done|lia|done].
      - rewrite lookup_insert_ne in Hkey by done. left. exists self'.
        split_and!; [done|by exists pid, op, d|].
        by eapply lookup_lt_Some. }
    unfold events_unique. simpl. rewrite Hrm, Hnext. split.
    + intros key self' n ev Hkey Hc.
      destruct (Hsplit _ _ _ _ Hkey Hc) as [(self & Hk & Hc0 & _)|(_ & _ & ->)];
        [|lia].
      pose proof (IHlt _ _ _ _ Hk Hc0). lia.
    + intros key1 key2 s1 s2 n1 n2 ev Hk1 Hk2 Hc1 Hc2.
      destruct (Hsplit _ _ _ _ Hk1 Hc1) as [(t1 & Hk1' & Hc1' & _)|(-> & -> & ->)],
               (Hsplit _ _ _ _ Hk2 Hc2) as [(t2 & Hk2' & Hc2' & _)|(-> & -> & Hev)].
      * by eapply (IHinj key1 key2 t1 t2).
      * subst ev. pose proof (IHlt _ _ _ _ Hk1' Hc1'). lia.
      * pose proof (IHlt _ _ _ _ Hk2' Hc2'). lia.
      * done.
Qed.

(** The event of an entry queued at a stranded resource is not set. *)
Lemma stranded_event_unset loaded c key self pid op d ev :
  cluster_reachable time_sleep loaded c →
  resource_manager c !! key = Some self →
  stranded self →
  (pid, op, d, Some ev) ∈ queue self →
  ev ∉ flags c.
Proof.
  intros Hr Hkey (_ & Hw & Hwq) Hin Hset.
  destruct (events_unique_kept loaded c Hr) as [_ Hinj].
  destruct (executed_kept time_sleep loaded c Hr ev Hset)
    as (key2 & self2 & pid2 & op2 & d2 & Hkey2 & Hin2).
  apply list_elem_of_lookup in Hin as [j Hj].
  apply list_elem_of_lookup in Hin2 as [n2 Hn2].
  assert (carries self (length (done_log (executor self)) + j) ev) as Hc1.
  { exists pid, op, d. unfold pipeline, in_flight, executing.
    rewrite Hw, Hwq. simpl. rewrite lookup_app_r by lia.
    by replace (length (done_log (executor self)) + j
                - length (done_log (executor self)))%nat with j by lia. }
  assert (carries self2 n2 ev) as Hc2.
  { exists pid2, op2, d2. by apply done_log_pipeline. }
  destruct (Hinj _ _ _ _ _ _ _ Hkey Hkey2 Hc1 Hc2) as [<- Hn].
  rewrite Hkey in Hkey2. injection Hkey2 as <-.
  apply lookup_lt_Some in Hn2. lia.
Qed.

(** A move of the cluster moves each resource by one of its own moves, or
    leaves it. *)
Lemma cluster_step_resource l c c' key self :
  cluster_step time_sleep l c = Some c' →
  resource_manager c !! key = Some self →
  ∃ self', resource_manager c' !! key = Some self'
           ∧ (self' = self ∨ moves time_sleep self self').
Proof.
  intros Hstep Hkey. destruct l as [k now|key0 l].
  - destruct (cluster_step_run _ _ _ _ _ Hstep) as (r & r' & c1 & _ & Hrs & ->).
    simpl. unfold Process.run_step in Hrs.
    destruct (control r) as [|i|i ev| |e]; try done.
    + injection Hrs as <- <-. exists self. by split; [|left].
    + case_bool_decide.
      2:{ injection Hrs as <- <-. exists self. by split; [|left]. }
      rewrite run_body_unfold in Hrs.
      assert (∀ rt res i' durs,
                resource_manager c !! rt = Some res →
                ∃ self',
                  <[rt := (Resource.request (process_id (proc r)) i' durs
                             (next_event c) res).1]> (resource_manager c) !! key
                  = Some self'
                  ∧ (self' = self ∨ moves time_sleep self self')) as Hins.
      { intros rt res op durs Hres. destruct (decide (rt = key)) as [->|Hne].
        - eexists. rewrite lookup_insert_eq. split; [done|]. right.
          rewrite Hkey in Hres. injection Hres as <-. apply moves_request.
        - exists self. rewrite lookup_insert_ne by done. by split; [|left]. }
      destruct (operations (proc r) !! i) as [[[rt op] d]|];
        [|injection Hrs as <- <-; exists self; by split; [|left]].
      destruct (resource_manager c !! rt) as [res|] eqn:Hres;
        [|injection Hrs as <- <-; exists self; by split; [|left]].
      simpl in Hrs. destruct (is_fused rt op).
      * destruct (operations (proc r) !! (i + 1)%nat) as [nxt|];
          [|injection Hrs as <- <-; exists self; by split; [|left]].
        simpl in Hrs.
        destruct (Resource.request _ _ _ _ _).2; injection Hrs as <- <-;
          by apply Hins.
      * simpl in Hrs.
        destruct (Resource.request _ _ _ _ _).2; injection Hrs as <- <-;
          by apply Hins.
    + destruct (is_set (flags c) ev); [|done]. injection Hrs as <- <-.
      exists self. by split; [|left].
  - destruct (cluster_step_work _ _ _ _ _ Hstep)
      as (self0 & self1 & fl' & Hres & Hst & ->). simpl.
    destruct (decide (key0 = key)) as [->|Hne].
    + exists self1. rewrite lookup_insert_eq. split; [done|]. right.
      rewrite Hkey in Hres. injection Hres as <-. by eexists _, _, _.
    + exists self. rewrite lookup_insert_ne by done. by split; [|left].
Qed.

Lemma waits_at_stranded_step loaded l c c' key k r ev :
  cluster_reachable time_sleep loaded c →
  waits_at_stranded c key k r ev →
  cluster_step time_sleep l c = Some c' →
  waits_at_stranded c' key k r ev.
Proof.
  intros Hr (Hk & [i Hb] & self & pid & op & d & Hkey & Hst & Hin) Hstep.
  pose proof (stranded_event_unset _ _ _ _ _ _ _ _ Hr Hkey Hst Hin) as Hunset.
  split_and!.
  - destruct l as [k0 now|key0 l0].
    + destruct (cluster_step_run _ _ _ _ _ Hstep) as (r0 & r1 & c1 & Hk0 & Hrs & ->).
      destruct (run_step_frame _ _ _ _ _ Hrs) as [_ Hth]. simpl. rewrite Hth.
      destruct (decide (k0 = k)) as [->|Hne]; [|by rewrite list_lookup_insert_ne].
      rewrite Hk in Hk0. injection Hk0 as <-.
      unfold Process.run_step in Hrs. rewrite Hb in Hrs.
      unfold is_set in Hrs. by rewrite bool_decide_eq_false_2 in Hrs.
    + by destruct (cluster_step_work _ _ _ _ _ Hstep) as (? & ? & ? & _ & _ & ->).
  - by exists i.
  - destruct (cluster_step_resource _ _ _ _ _ Hstep Hkey) as (self' & Hkey' & Hmv).
    exists self', pid, op, d. split; [done|].
    destruct Hmv as [->|Hmv]; [done|].
    destruct (halted_moves time_sleep _ _ (or_intror Hst) Hmv)
      as (_ & Hst' & _ & more & Hq).
    split; [by apply Hst'|]. rewrite Hq. apply elem_of_app. by left.
Qed.

End Stranded.

(** X19: in every state of a run, an event is carried by at most one entry
    over all resources, so the event a thread waits on is set by the
    execution of its own request only. *)
Theorem event_of_one_entry (time_sleep : Z → Result unit)
    (loaded : list (list Operation)) (c : Cluster) (key1 key2 : string)
    (self1 self2 : Resource) (n1 n2 : nat) (event : Event) :
  cluster_reachable time_sleep loaded c →
  resource_manager c !! key1 = Some self1 →
  resource_manager c !! key2 = Some self2 →
  carries self1 n1 event →
  carries self2 n2 event →
  key1 = key2 ∧ n1 = n2 ∧ (event < next_event c)%nat.
Proof.
  intros Hr Hk1 Hk2 Hc1 Hc2.
  destruct (events_unique_kept time_sleep loaded c Hr) as [Hlt Hinj].
  destruct (Hinj _ _ _ _ _ _ _ Hk1 Hk2 Hc1 Hc2) as [-> ->].
  split_and!; [done..|]. by eapply Hlt.
Qed.

Lemma event_of_one_entry_witness :
  let ops := [("arm", "0x500", 5); ("inc", "0x300", 15)]%string in
  let tr := [Run 0 1000; Run 0 1000] in
  let c := default (started []) (cluster_exec py_sleep tr (started [ops])) in
  ("arm" = "arm")%string ∧ (1 = 1)%nat ∧ (0 < next_event c)%nat.
Proof.
  intros ops tr c.
  apply (event_of_one_entry py_sleep [ops] c "arm" "arm"
           (mkResource "arm" true [(0%nat, "0x600"%string, 15, Some 0%nat)] false
              (mkExecutor [(0%nat, "0x500"%string, 5, None)] Idle []))
           (mkResource "arm" true [(0%nat, "0x600"%string, 15, Some 0%nat)] false
              (mkExecutor [(0%nat, "0x500"%string, 5, None)] Idle []))
           1 1 0%nat).
  - exists tr. vm_compute. reflexivity.
  - vm_compute. reflexivity.
  - vm_compute. reflexivity.
  - by exists 0%nat, "0x600"%string, 15.
  - by exists 0%nat, "0x600"%string, 15.
Defined.

(** X20: when a thread waits on an event whose entry is queued at a
    resource that is stranded (active with nothing at its pool, as after a
    failed execution), then whatever moves follow, the event is never set
    and the thread never moves again: [event.wait()] does not return. *)
Theorem wait_at_stranded_resource_never_ends (time_sleep : Z → Result unit)
    (loaded : list (list Operation)) (c : Cluster) (key : string) (k : nat)
    (r : Runner) (event : Event) (tr : list ClusterLabel) (c' : Cluster) :
  cluster_reachable time_sleep loaded c →
  waits_at_stranded c key k r event →
  cluster_exec time_sleep tr c = Some c' →
  (event ∉ flags c')
  ∧ threads c' !! k = Some r
  ∧ ∀ now, cluster_step time_sleep (Run k now) c' = None.
Proof.
  intros Hr Hw Hex.
  assert (cluster_reachable time_sleep loaded c'
          ∧ waits_at_stranded c' key k r event) as [Hr' Hw'].
  { revert c Hr Hw Hex. induction tr as [|l tr IH]; intros c Hr Hw Hex.
    - by injection Hex as <-.
    - change (cluster_step time_sleep l c ≫= cluster_exec time_sleep tr = Some c')
        in Hex.
      destruct (cluster_step time_sleep l c) as [c1|] eqn:Hstep; [|done].
      simpl in Hex. apply (IH c1); [|by eapply waits_at_stranded_step|done].
      by eapply cluster_reachable_step. }
  destruct Hw' as (Hk & [i Hb] & self & pid & op & d & Hkey & Hst & Hin).
  pose proof (stranded_event_unset _ _ _ _ _ _ _ _ _ Hr' Hkey Hst Hin) as Hunset.
  split_and!; [done..|].
  intros now. simpl. rewrite Hk. simpl. unfold Process.run_step. rewrite Hb.
  unfold is_set. by rewrite bool_decide_eq_false_2.
Qed.

Lemma wait_at_stranded_resource_never_ends_witness :
  let ops := [("inc", "0x100", -5); ("inc", "0x200", 3)]%string in
  let tr0 := [Run 0 1000; Run 0 1000; Work "inc" Pickup; Work "inc" Finish;
              Work "inc" Callback; Run 0 1001; Run 0 1002] in
  let c := default (started []) (cluster_exec py_sleep tr0 (started [ops])) in
  let r := mkRunner (mkProcess 0 ops (Some 1000) None) (Blocked 1 1%nat) in
  (1%nat ∉ flags c)
  ∧ threads c !! 0%nat = Some r
  ∧ ∀ now, cluster_step py_sleep (Run 0 now) c = None.
Proof.
  intros ops tr0 c r.
  apply (wait_at_stranded_resource_never_ends py_sleep [ops] c "inc" 0 r 1%nat [] c).
  - exists tr0. vm_compute. reflexivity.
  - split_and!.
    + vm_compute. reflexivity.
    + by exists 1%nat.
    + exists (mkResource "inc" true [(0%nat, "0x200"%string, 3, Some 1%nat)] false
                (mkExecutor [] Idle [(0%nat, "0x100"%string, -5, Some 0%nat)])),
        0%nat, "0x200"%string, 3.
      split_and!; [vm_compute; reflexivity|done|].
      apply list_elem_of_singleton. reflexivity.
  - reflexivity.
Defined.

(** ** Events stay set *)

(** X21: nothing clears an event: along any moves of the cluster, an event
    that is set stays set. *)
Theorem events_stay_set (time_sleep : Z → Result unit)
    (tr : list ClusterLabel) (c c' : Cluster) :
  cluster_exec time_sleep tr c = Some c' →
  flags c ⊆ flags c'.
Proof.
  revert c. induction tr as [|l tr IH]; intros c Hex.
  - by injection Hex as <-.
  - change (cluster_step time_sleep l c ≫= cluster_exec time_sleep tr = Some c') in Hex.
    destruct (cluster_step time_sleep l c) as [c1|] eqn:Hstep; [|done].
    simpl in Hex. transitivity (flags c1); [|by apply IH].
    destruct l as [k now|key l].
    + destruct (cluster_step_run _ _ _ _ _ Hstep) as (r & r' & c2 & _ & Hrs & ->).
      destruct (run_step_frame _ _ _ _ _ Hrs) as [Hfl _]. simpl. by rewrite Hfl.
    + destruct (cluster_step_work _ _ _ _ _ Hstep)
        as (self & self' & fl' & _ & Hst & ->). simpl.
      destruct (step_pending _ _ _ _ _ _ Hst)
        as [(_ & -> & _)|(item & _ & _ & _ & _ & ->)]; [done|].
      destruct item.2; [|done]. apply union_subseteq_r.
Qed.

Lemma events_stay_set_witness :
  let ops := [("inc", "0x100", 10)]%string in
  let c := default (started [])
             (cluster_exec py_sleep
                [Run 0 1000; Run 0 1000; Work "inc" Pickup; Work "inc" Finish]
                (started [ops])) in
  let c' := default (started [])
              (cluster_exec py_sleep [Work "inc" Callback; Run 0 1010; Run 0 1010] c) in
  flags c ⊆ flags c'.
Proof.
  intros ops c c'.
  apply (events_stay_set py_sleep [Work "inc" Callback; Run 0 1010; Run 0 1010] c c').
  vm_compute. reflexivity.
Defined.
